(** * A shallow embedding of [nml_formatter.py]

    The formatter is a pure text-to-text function once the file read and
    the file write are set aside, so the embedding is a family of
    functions over texts.  A Python [str] is modelled as a list of
    characters, a character being a code point below 256 (the type
    [ascii]); the predicates [isspace], [is_linebreak] and [lower_char]
    follow what [str.isspace], [str.splitlines] and [str.lower] do on
    that range.  Python [int]s are [Z].  A raised exception is the
    [Raise] alternative of [result].

    Two things lie outside the embedding, and every statement below is
    to be read within these bounds.  Texts with a code point of 256 or
    more are not represented: there [str.lower] need not map one
    character to one character (U+0130 becomes two code points), so a
    lowered block header can be longer than the header.  And the only
    exception is [ValueError], the one the program raises itself: the
    padding [' ' * n], which Python refuses to build for a huge [n]
    (OverflowError, MemoryError), is built for every [n] here. *)

From Stdlib Require Import List Ascii String ZArith Lia Bool Arith.
Import ListNotations.
Local Open Scope list_scope.
Local Open Scope char_scope.

(** ** Texts *)

Definition str := list ascii.

(** A literal text. *)
Definition lit (x : string) : str := list_ascii_of_string x.

Definition str_eqb (a b : str) : bool :=
  if list_eq_dec ascii_dec a b then true else false.

Module PyStr.

Definition code (c : ascii) : nat := nat_of_ascii c.

Definition between (lo hi n : nat) : bool := (lo <=? n)%nat && (n <=? hi)%nat.

(** [str.isspace] / the regex class [\s] on code points below 256:
    \t \n \v \f \r, 0x1c-0x1f, space, 0x85 and 0xa0. *)
Definition isspace (c : ascii) : bool :=
  between 9 13 (code c) || between 28 32 (code c)
  || (code c =? 133)%nat || (code c =? 160)%nat.

(** The line boundaries of [str.splitlines] below 256:
    \n \v \f \r, 0x1c-0x1e and 0x85. *)
Definition is_linebreak (c : ascii) : bool :=
  between 10 13 (code c) || between 28 30 (code c) || (code c =? 133)%nat.

(** [str.lower] on one code point below 256: A-Z and the Latin-1
    capitals 0xc0-0xde (0xd7 apart) move up by 32.  On this range the
    lowered text has the length of the text; this is not so for code
    points from 256 on (U+0130), which are not represented. *)
Definition lower_char (c : ascii) : ascii :=
  if between 65 90 (code c) || between 192 214 (code c)
     || between 216 222 (code c)
  then ascii_of_nat (code c + 32) else c.

Definition lower (s : str) : str := map lower_char s.

(** [c in s] for a one-character [c]. *)
Definition contains (c : ascii) (s : str) : bool := existsb (Ascii.eqb c) s.

Fixpoint startswith (pre s : str) : bool :=
  match pre, s with
  | [], _ => true
  | p :: pre', c :: s' => Ascii.eqb p c && startswith pre' s'
  | _ :: _, [] => false
  end.

(** Stripping: [lstrip_by p] drops the longest prefix of characters
    satisfying [p]; [rstrip_by] does so at the end. *)
Fixpoint lstrip_by (p : ascii -> bool) (s : str) : str :=
  match s with
  | [] => []
  | c :: t => if p c then lstrip_by p t else s
  end.

Definition rstrip_by (p : ascii -> bool) (s : str) : str :=
  rev (lstrip_by p (rev s)).

Definition strip_by (p : ascii -> bool) (s : str) : str :=
  rstrip_by p (lstrip_by p s).

(** [s.strip()], [s.rstrip()] *)
Definition strip : str -> str := strip_by isspace.
Definition rstrip : str -> str := rstrip_by isspace.

(** [s.strip(chars)], [s.rstrip(chars)] *)
Definition strip_chars (chars : str) : str -> str :=
  strip_by (fun c => contains c chars).
Definition rstrip_chars (chars : str) : str -> str :=
  rstrip_by (fun c => contains c chars).

(** [s.splitlines()]: a line ends at each boundary character, "\r\n"
    counting as one boundary; no empty last line is reported. *)
Fixpoint splitlines (s : str) : list str :=
  match s with
  | [] => []
  | c :: t =>
      if is_linebreak c then
        match t with
        | c' :: t' =>
            if Ascii.eqb c "013" && Ascii.eqb c' "010"
            then [] :: splitlines t'
            else [] :: splitlines t
        | [] => [] :: splitlines t
        end
      else
        match splitlines t with
        | [] => [[c]]
        | l :: ls => (c :: l) :: ls
        end
  end.

(** [sep.join(items)] *)
Fixpoint join (sep : str) (items : list str) : str :=
  match items with
  | [] => []
  | x :: rest =>
      match rest with
      | [] => x
      | _ :: _ => x ++ sep ++ join sep rest
      end
  end.

(** [s.split(sep)] for a one-character [sep]: always at least one
    item. *)
Fixpoint split (sep : ascii) (s : str) : list str :=
  match s with
  | [] => [[]]
  | c :: t =>
      if Ascii.eqb c sep then [] :: split sep t
      else match split sep t with
           | [] => [[c]]
           | l :: ls => (c :: l) :: ls
           end
  end.

(** [s.split(sep, 1)] when [sep] occurs in [s]: the text before the
    first [sep] and the text after it. *)
Fixpoint split_first (sep : ascii) (s : str) : str * str :=
  match s with
  | [] => ([], [])
  | c :: t =>
      if Ascii.eqb c sep then ([], t)
      else let '(a, b) := split_first sep t in (c :: a, b)
  end.

(** [s.replace(old, new)] for a non-empty [old]: a scan from the
    left; at an occurrence of [old] the scan emits [new] and resumes
    after the occurrence ([skip] counts the characters of the
    occurrence still to pass over). *)
Fixpoint replace_from (old new : str) (skip : nat) (s : str) : str :=
  match s with
  | [] => []
  | c :: t =>
      match skip with
      | S k => replace_from old new k t
      | O =>
          if startswith old s
          then new ++ replace_from old new (List.length old - 1) t
          else c :: replace_from old new 0 t
      end
  end.

Definition replace (old new : str) (s : str) : str :=
  replace_from old new 0 s.

(** [' ' * n], for an [n] that Python can build the text for: the
    empty text for a negative [n]; no error for a huge one. *)
Definition spaces (n : Z) : str := repeat " " (Z.to_nat n).

(** [len(s)] *)
Definition len (s : str) : Z := Z.of_nat (List.length s).

End PyStr.
Import PyStr.

(** ** Regular expressions

    The fragment of Python's [re] that the parser's pattern uses:
    character classes under the greedy quantifiers [*], [+] and [?],
    sequencing and capturing groups, matched by backtracking as [re]
    does (a quantifier first takes as many characters as it can and
    gives them back one at a time while the rest of the pattern
    fails). *)

Module Regex.

Inductive regex : Type :=
| Star (cls : ascii -> bool)
| Plus (cls : ascii -> bool)
| Opt (cls : ascii -> bool)
| Group (r : regex)
| Seq (r1 r2 : regex).

Section Exec.
Variable R : Type.

(** Greedy [cls*] followed by the continuation [k]. *)
Fixpoint star (cls : ascii -> bool) (s : str) (k : str -> option R)
  : option R :=
  match s with
  | c :: t =>
      if cls c then
        match star cls t k with
        | Some r => Some r
        | None => k s
        end
      else k s
  | [] => k s
  end.

(** [exec r s caps k]: match [r] at the head of [s], then the rest
    of the pattern [k] on what is left; [caps] are the groups
    closed so far, in the order of their closing. *)
Fixpoint exec (r : regex) (s : str) (caps : list str)
         (k : str -> list str -> option R) : option R :=
  match r with
  | Star cls => star cls s (fun s' => k s' caps)
  | Plus cls =>
      match s with
      | c :: t => if cls c then star cls t (fun s' => k s' caps) else None
      | [] => None
      end
  | Opt cls =>
      match s with
      | c :: t =>
          if cls c then
            match k t caps with
            | Some r => Some r
            | None => k s caps
            end
          else k s caps
      | [] => k s caps
      end
  | Group r1 =>
      exec r1 s caps
           (fun s' caps' =>
              k s' (caps' ++ [firstn (List.length s - List.length s') s]))
  | Seq r1 r2 =>
      exec r1 s caps (fun s' caps' => exec r2 s' caps' k)
  end.
End Exec.
Arguments star {R} cls s k.
Arguments exec {R} r s caps k.

(** [re.match(r, s)]: anchored at the start of [s] only; the result
    lists the groups. *)
Definition re_match (r : regex) (s : str) : option (list str) :=
  exec r s [] (fun _ caps => Some caps).

(** [m.group(i)], [i >= 1] *)
Definition group (caps : list str) (i : nat) : str := nth (i - 1) caps [].

End Regex.
Import Regex.

(** ** Results *)

(** The exception the program raises itself (source line 84). *)
Inductive exn : Type :=
| ValueError (msg : str).

Inductive result (A : Type) : Type :=
| Ok (a : A)
| Raise (e : exn).
Arguments Ok {A} a.
Arguments Raise {A} e.

Definition bind {A B} (m : result A) (f : A -> result B) : result B :=
  match m with
  | Ok a => f a
  | Raise e => Raise e
  end.

Notation "x <- m ;; k" := (bind m (fun x => k))
  (at level 61, m at next level, right associativity).
Notation "' pat <- m ;; k" := (bind m (fun x => match x with pat => k end))
  (at level 61, pat pattern, m at next level, right associativity).

(** A [for] loop over [xs] whose body may raise. *)
Fixpoint for_each {S A} (body : S -> A -> result S) (st : S) (xs : list A)
  : result S :=
  match xs with
  | [] => Ok st
  | x :: rest => st' <- body st x ;; for_each body st' rest
  end.

(** ** The program *)

(** The pattern of the parser (source line 78) and its character
    classes: whitespace, any number; a comma, at most one; whitespace,
    any number; group 1, one or more characters that are neither
    whitespace nor [=]; whitespace, any number; [=], one or more;
    group 2, any number of characters other than a newline. *)
Definition cls_space : ascii -> bool := isspace.
Definition cls_comma (c : ascii) : bool := Ascii.eqb c ",".
Definition cls_key (c : ascii) : bool := negb (isspace c) && negb (Ascii.eqb c "=").
Definition cls_eq (c : ascii) : bool := Ascii.eqb c "=".
Definition cls_dot (c : ascii) : bool := negb (Ascii.eqb c "010").

Definition kv_regex : regex :=
  Seq (Star cls_space)
   (Seq (Opt cls_comma)
     (Seq (Star cls_space)
       (Seq (Group (Plus cls_key))
         (Seq (Star cls_space)
           (Seq (Plus cls_eq)
                (Group (Star cls_dot))))))).

(** [parse_key_val_pair(line)] *)
Definition parse_key_val_pair (line : str) : result (str * str * str) :=
  let '(value_part, comment) :=
    if contains "!" line then
      let '(value_part, comment) := split_first "!" line in
      (value_part, lit " ! " ++ strip comment)
    else (line, []) in
  match re_match kv_regex value_part with
  | Some eq_match =>
      let key := group eq_match 1 in
      let value := rstrip_chars [","; " "; "009"] (group eq_match 2) in
      Ok (key, strip value, comment)
  | None => Raise (ValueError (lit "No key matched in " ++ line))
  end.

(** [find_longest_key(content)]; the [try]/[except ValueError] of the
    loop body is the [match] on the parser's result. *)
Definition find_longest_key (content : str) : result Z :=
  for_each
    (fun longest_key line =>
       match parse_key_val_pair line with
       | Raise (ValueError _) => Ok longest_key
       | Ok (key, _, _) =>
           if (len key >? longest_key)%Z then Ok (len key) else Ok longest_key
       end)
    (-1)%Z (splitlines content).

Definition TRUE_REPR : list str := [lit ".t."; lit ".TRUE."].
Definition FALSE_REPR : list str := [lit ".f."; lit ".FALSE."].

(** Lines 122-133 of the source: the rewriting of the value. *)
Definition normalize_value (value : str) : str :=
  let value :=
    if contains "," value
    then join (lit ", ") (map strip (split "," value))
    else value in
  let value :=
    fold_left (fun value bool_str => replace bool_str (lit ".true.") value)
              TRUE_REPR value in
  let value :=
    fold_left (fun value bool_str => replace bool_str (lit ".false.") value)
              FALSE_REPR value in
  replace ["034"] ["'"] value.

(** [format_line(line, align_eq_to, block_indent, trailing_comma,
    keep_comments)] *)
Definition format_line (line : str) (align_eq_to block_indent : Z)
           (trailing_comma keep_comments : bool) : result str :=
  '(key, value, comment) <- parse_key_val_pair line ;;
  let value := normalize_value value in
  let eq_offset := Z.max (align_eq_to - len key - 1) 1 in
  let out_comment := if keep_comments then comment else [] in
  let out_comma := if trailing_comma then lit "," else [] in
  Ok (spaces block_indent ++ key ++ spaces eq_offset ++ lit " = "
      ++ value ++ out_comma ++ out_comment).

(** The options of one run. *)
Record config : Type := {
  eq_offset : Z;
  block_indent : Z;
  trailing_comma : bool;
  keep_comments : bool;
  keep_whitelines : bool
}.

(** The two variables the loop of [format_nml] updates. *)
Record loop_state : Type := {
  in_block : bool;
  mod_lines : list str
}.

Definition append_line (st : loop_state) (l : str) : loop_state :=
  {| in_block := in_block st; mod_lines := mod_lines st ++ [l] |}.

Definition set_block (b : bool) (st : loop_state) : loop_state :=
  {| in_block := b; mod_lines := mod_lines st |}.

(** The body of the loop of [format_nml] (source lines 196-234). *)
Definition format_nml_body (cfg : config) (align_eq_to : Z)
           (st : loop_state) (line : str) : result loop_state :=
  let line := strip_chars ["010"] line in
  let line := rstrip line in
  if startswith (lit "&") (strip line) then
    Ok (append_line (set_block true st) (lower (strip line)))
  else if str_eqb (strip line) (lit "/") then
    Ok (append_line (append_line (set_block false st) (strip line)) [])
  else if str_eqb line [] then
    if keep_whitelines cfg && in_block st
    then Ok (append_line st line)
    else Ok st
  else if startswith (lit "!") (strip line) then
    if keep_comments cfg then
      let indent :=
        if negb (in_block st) then [] else spaces (block_indent cfg) in
      Ok (append_line st (indent ++ lit "! " ++ strip (skipn 1 (strip line))))
    else Ok st
  else
    fl <- format_line line align_eq_to (block_indent cfg)
                      (trailing_comma cfg) (keep_comments cfg) ;;
    Ok (append_line st fl).

(** [format_nml], as a function of the text that [read_text] returned. *)
Definition format_nml (cfg : config) (nml_content : str) : result str :=
  longest_key <- find_longest_key nml_content ;;
  let align_eq_to := (longest_key + eq_offset cfg)%Z in
  st <- for_each (format_nml_body cfg align_eq_to)
                 {| in_block := false; mod_lines := [] |}
                 (splitlines nml_content) ;;
  Ok (join ["010"] (mod_lines st)).

(** The options the command line gives when no flag is passed. *)
Definition default_config : config :=
  {| eq_offset := 5; block_indent := 2; trailing_comma := true;
     keep_comments := true; keep_whitelines := true |}.


(** * Auxiliary definitions for the statements *)

(** The longest prefix of characters satisfying [p]. *)
Fixpoint takewhile (p : ascii -> bool) (s : str) : str :=
  match s with
  | [] => []
  | c :: t => if p c then c :: takewhile p t else []
  end.

(** What the pattern of the parser computes, written as a scan.
    [match_key u]: the key is the longest run of key characters at the
    head of [u]; whitespace may follow; then [=] signs; group 2 is what
    follows the last of them, up to a newline. *)
Definition match_key (u : str) : option (list str) :=
  match takewhile cls_key u with
  | [] => None
  | key =>
      match lstrip_by isspace (lstrip_by cls_key u) with
      | c :: e =>
          if cls_eq c
          then Some [key; takewhile cls_dot (lstrip_by cls_eq e)]
          else None
      | [] => None
      end
  end.

(** [match_kv s]: leading whitespace is passed over; a comma there is
    first taken as the optional comma and, when no key follows it that
    way, as the first character of the key. *)
Definition match_kv (s : str) : option (list str) :=
  match lstrip_by isspace s with
  | c :: t =>
      if cls_comma c then
        match match_key (lstrip_by isspace t) with
        | Some r => Some r
        | None => match_key (c :: t)
        end
      else match_key (c :: t)
  | [] => None
  end.

(** The tail of the pattern, from the key on. *)
Definition key_tail : regex :=
  Seq (Group (Plus cls_key))
      (Seq (Star cls_space) (Seq (Plus cls_eq) (Group (Star cls_dot)))).

(** The text the pattern is matched on, and the comment, as the first
    lines of [parse_key_val_pair] compute them. *)
Definition value_part (line : str) : str :=
  if contains "!" line then fst (split_first "!" line) else line.

Definition comment_of (line : str) : str :=
  if contains "!" line
  then lit " ! " ++ strip (snd (split_first "!" line))
  else [].

(** The trimming of group 2 (source lines 81-82). *)
Definition trim_value (g : str) : str :=
  strip (rstrip_chars [","; " "; "009"] g).

(** A text matches the pattern of the parser at its head: whitespace,
    at most one comma, whitespace, a non-empty key of characters that
    are neither whitespace nor [=], whitespace, at least one [=]; what
    follows is free. *)
Definition matches_pattern (s : str) : Prop :=
  exists ws1 comma ws2 key ws3 eqs rest,
    s = ws1 ++ comma ++ ws2 ++ key ++ ws3 ++ eqs ++ rest /\
    forallb isspace ws1 = true /\
    (comma = [] \/ comma = [","]) /\
    forallb isspace ws2 = true /\
    key <> [] /\ forallb cls_key key = true /\
    forallb isspace ws3 = true /\
    eqs <> [] /\ forallb cls_eq eqs = true.

(** The length of the key of a line the parser accepts. *)
Definition key_length (line : str) : option Z :=
  match parse_key_val_pair line with
  | Ok (key, _, _) => Some (len key)
  | Raise _ => None
  end.

(** The key lengths of the lines the parser accepts, in order. *)
Definition key_lengths (lines : list str) : list Z :=
  flat_map (fun line => match key_length line with
                        | Some n => [n]
                        | None => []
                        end) lines.

(** The largest of [d] and the numbers of [l]. *)
Definition max_from (d : Z) (l : list Z) : Z := fold_right Z.max d l.

(** The characters that [strip("\n")] removes. *)
Definition is_nl (c : ascii) : bool := contains c ["010"].

(** The line as the body of the loop sees it (source lines 197-198). *)
Definition clean (line : str) : str := rstrip (strip_chars ["010"] line).

(** The five branches of the body of the loop, in the order of their
    tests. *)
Inductive line_kind : Type :=
| BlockOpen
| BlockClose
| Blank
| Comment
| Assignment.

Definition classify (line : str) : line_kind :=
  let line := clean line in
  if startswith (lit "&") (strip line) then BlockOpen
  else if str_eqb (strip line) (lit "/") then BlockClose
  else if str_eqb line [] then Blank
  else if startswith (lit "!") (strip line) then Comment
  else Assignment.

(** One turn of the loop as a function of the block flag: the new flag
    and the lines appended. *)
Definition step (cfg : config) (align_eq_to : Z) (b : bool) (line : str)
  : result (bool * list str) :=
  match classify line with
  | BlockOpen => Ok (true, [lower (strip (clean line))])
  | BlockClose => Ok (false, [strip (clean line); []])
  | Blank => Ok (b, if keep_whitelines cfg && b then [clean line] else [])
  | Comment =>
      Ok (b, if keep_comments cfg
             then [(if negb b then [] else spaces (block_indent cfg))
                   ++ lit "! " ++ strip (skipn 1 (strip (clean line)))]
             else [])
  | Assignment =>
      fl <- format_line (clean line) align_eq_to (block_indent cfg)
                        (trailing_comma cfg) (keep_comments cfg) ;;
      Ok (b, [fl])
  end.

(** The whole loop in the same style. *)
Fixpoint run (cfg : config) (align_eq_to : Z) (b : bool) (lines : list str)
  : result (bool * list str) :=
  match lines with
  | [] => Ok (b, [])
  | line :: rest =>
      '(b1, o1) <- step cfg align_eq_to b line ;;
      '(b2, o2) <- run cfg align_eq_to b1 rest ;;
      Ok (b2, o1 ++ o2)
  end.

Definition extend (st : loop_state) (r : bool * list str) : loop_state :=
  {| in_block := fst r; mod_lines := mod_lines st ++ snd r |}.

(** [old] occurs in [s] as a substring. *)
Definition occurs (old s : str) : Prop := exists a b, s = a ++ old ++ b.

(** [replaced_all old new s r]: [r] is [s] with every occurrence of
    [old] met by a scan from the left replaced by [new], each
    occurrence being the first one after the end of the one before. *)
Inductive replaced_all (old new : str) : str -> str -> Prop :=
| replaced_none (s : str) :
    ~ occurs old s -> replaced_all old new s s
| replaced_hit (a b r : str) :
    ~ occurs old (a ++ removelast old) ->
    replaced_all old new b r ->
    replaced_all old new (a ++ old ++ b) (a ++ new ++ r).

(** The first step of the rewriting of the value (source lines
    123-124). *)
Definition comma_spacing (value : str) : str :=
  if contains "," value
  then join (lit ", ") (map strip (split "," value))
  else value.

(** A double quote becomes a single quote. *)
Definition requote (c : ascii) : ascii :=
  if Ascii.eqb c "034" then "'" else c.

(** The key a scan found, if any. *)
Definition key_of (m : option (list str)) : option str :=
  option_map (fun caps => group caps 1) m.

(** The position, counted from 0, of the first [c] in [s]. *)
Fixpoint index_of (c : ascii) (s : str) : option nat :=
  match s with
  | [] => None
  | x :: t => if Ascii.eqb x c then Some O else option_map S (index_of c t)
  end.

(** The position, counted from 0, of the first [=] of a line. *)
Definition eq_column (l : str) : option Z :=
  option_map Z.of_nat (index_of "=" l).

(** A text without line boundaries: what [splitlines] returns and what
    the formatter emits are made of such lines. *)
Definition no_break (c : ascii) : bool := negb (is_linebreak c).
Definition one_line (s : str) : bool := forallb no_break s.

(** What [splitlines] makes of the joined lines: a last empty line is
    not reported. *)
Fixpoint drop_final_empty (ml : list str) : list str :=
  match ml with
  | [] => []
  | x :: rest =>
      match rest with
      | [] => match x with [] => [] | _ :: _ => [x] end
      | _ :: _ => x :: drop_final_empty rest
      end
  end.

(** The characters that the trimming of group 2 removes at the end. *)
Definition is_cst (c : ascii) : bool := contains c [","; " "; "009"].

(** A character other than [!]. *)
Definition not_bang (c : ascii) : bool := negb (Ascii.eqb "!" c).

(** ** The conditions under which formatting is idempotent *)





(** * Auxiliary definitions for the further properties *)

(** [old in s] for texts. *)
Fixpoint occursb (old s : str) : bool :=
  startswith old s ||
  match s with
  | [] => false
  | _ :: t => occursb old t
  end.

(** The key and the trimmed value of a match of the pattern, if any:
    the two fields the parser makes out of the groups. *)
Definition fields_of (m : option (list str)) : option (str * str) :=
  option_map (fun caps => (group caps 1, trim_value (group caps 2))) m.

(** * The primitives on small inputs *)

Example splitlines_mixed :
  splitlines (lit "a" ++ ["013"; "010"] ++ lit "b" ++ ["010"; "013"]
              ++ lit "c" ++ ["010"])
  = [lit "a"; lit "b"; []; lit "c"].
Proof. reflexivity. Qed.

Example splitlines_empty : splitlines [] = [].
Proof. reflexivity. Qed.

Example splitlines_newline : splitlines ["010"] = [[]].
Proof. reflexivity. Qed.

Example replace_overlap :
  replace (lit ".t.") (lit ".true.") (lit ".t.t.") = lit ".true.t.".
Proof. reflexivity. Qed.

Example split_commas : split "," (lit "1,,2") = [lit "1"; []; lit "2"].
Proof. reflexivity. Qed.

Example match_comma_key :
  re_match kv_regex (lit ",=1") = Some [lit ","; lit "1"].
Proof. reflexivity. Qed.

Example match_comma_then_key :
  re_match kv_regex (lit ",,a=1" ++ ["010"] ++ lit "zz")
  = Some [lit ",a"; lit "1"].
Proof. reflexivity. Qed.

Example match_two_words : re_match kv_regex (lit " , a b =1") = None.
Proof. reflexivity. Qed.

Example parse_inline_comment :
  parse_key_val_pair (lit "  ,Key_A  == 'x,!y' , ! hi  ")
  = Ok (lit "Key_A", lit "'x", lit " ! y' , ! hi").
Proof. reflexivity. Qed.

Example format_flag_line :
  format_nml default_config (lit "key = .t. ! flag" ++ ["010"])
  = Ok (lit "  key     = .true., ! flag").
Proof. reflexivity. Qed.

Example format_two_on_one_line :
  format_nml default_config
             (lit "&nml" ++ ["010"] ++ lit " x=1,y=2.0 !note" ++ ["010"]
              ++ lit "/" ++ ["010"])
  = Ok (lit "&nml" ++ ["010"] ++ lit "  x     = 1, y=2.0, ! note" ++ ["010"]
        ++ lit "/" ++ ["010"]).
Proof. reflexivity. Qed.

(** * Properties of the text primitives *)

Section StripFacts.
Variable p : ascii -> bool.

Lemma takewhile_lstrip (s : str) : takewhile p s ++ lstrip_by p s = s.
Proof.
  induction s as [|c t IH]; simpl; [reflexivity|].
  destruct (p c); simpl; [now rewrite IH | reflexivity].
Qed.

Lemma takewhile_forallb (s : str) : forallb p (takewhile p s) = true.
Proof.
  induction s as [|c t IH]; simpl; [reflexivity|].
  destruct (p c) eqn:E; simpl; [now rewrite E | reflexivity].
Qed.

Lemma lstrip_by_app_all (a b : str) :
  forallb p a = true -> lstrip_by p (a ++ b) = lstrip_by p b.
Proof.
  induction a as [|c a IH]; simpl; [reflexivity|].
  intros H. apply andb_prop in H as [Hc Ha]. now rewrite Hc, IH.
Qed.

Lemma lstrip_by_stop (c : ascii) (s : str) :
  p c = false -> lstrip_by p (c :: s) = c :: s.
Proof. intros H; simpl; now rewrite H. Qed.

Lemma lstrip_by_all (a : str) : forallb p a = true -> lstrip_by p a = [].
Proof.
  intros H. rewrite <- (app_nil_r a). now rewrite lstrip_by_app_all.
Qed.

Lemma lstrip_by_head (s : str) :
  match lstrip_by p s with
  | [] => True
  | c :: _ => p c = false
  end.
Proof.
  induction s as [|c t IH]; simpl; [exact I|].
  destruct (p c) eqn:E; [exact IH | exact E].
Qed.

Lemma lstrip_by_idem (s : str) : lstrip_by p (lstrip_by p s) = lstrip_by p s.
Proof.
  pose proof (lstrip_by_head s) as H.
  destruct (lstrip_by p s) as [|c u]; [reflexivity|].
  now apply lstrip_by_stop.
Qed.

Lemma takewhile_app_all (a b : str) :
  forallb p a = true -> takewhile p (a ++ b) = a ++ takewhile p b.
Proof.
  induction a as [|c a IH]; simpl; [reflexivity|].
  intros H. apply andb_prop in H as [Hc Ha]. now rewrite Hc, IH.
Qed.

Lemma takewhile_stop (c : ascii) (s : str) :
  p c = false -> takewhile p (c :: s) = [].
Proof. intros H; simpl; now rewrite H. Qed.

Lemma takewhile_all (a : str) : forallb p a = true -> takewhile p a = a.
Proof.
  intros H. rewrite <- (app_nil_r a) at 1.
  rewrite takewhile_app_all by assumption. simpl. apply app_nil_r.
Qed.

Lemma forallb_rev (s : str) : forallb p (rev s) = forallb p s.
Proof.
  induction s as [|c t IH]; simpl; [reflexivity|].
  rewrite forallb_app, IH. simpl. rewrite andb_true_r. apply andb_comm.
Qed.

Lemma firstn_takewhile (s : str) :
  firstn (List.length s - List.length (lstrip_by p s)) s = takewhile p s.
Proof.
  rewrite <- (takewhile_lstrip s) at 1 3.
  rewrite length_app, Nat.add_sub.
  rewrite firstn_app, Nat.sub_diag, firstn_all. simpl. apply app_nil_r.
Qed.

Lemma rstrip_by_app_all (a b : str) :
  forallb p b = true -> rstrip_by p (a ++ b) = rstrip_by p a.
Proof.
  intros H. unfold rstrip_by. rewrite rev_app_distr.
  rewrite lstrip_by_app_all; [reflexivity|].
  now rewrite forallb_rev.
Qed.

Lemma rstrip_by_stop (a : str) (c : ascii) :
  p c = false -> rstrip_by p (a ++ [c]) = a ++ [c].
Proof.
  intros H. unfold rstrip_by. rewrite rev_app_distr. simpl.
  rewrite H. simpl. now rewrite rev_involutive.
Qed.

Lemma rstrip_by_nil : rstrip_by p [] = [].
Proof. reflexivity. Qed.

Lemma rstrip_by_all (a : str) : forallb p a = true -> rstrip_by p a = [].
Proof.
  intros H. change a with ([] ++ a). now rewrite rstrip_by_app_all.
Qed.

(** What [rstrip_by] leaves is empty or ends in a character outside
    [p]. *)
Lemma rstrip_by_last (s : str) :
  rstrip_by p s = [] \/
  exists a c, rstrip_by p s = a ++ [c] /\ p c = false.
Proof.
  unfold rstrip_by. pose proof (lstrip_by_head (rev s)) as H.
  destruct (lstrip_by p (rev s)) as [|c u]; [now left|].
  right. exists (rev u), c. simpl. split; [reflexivity | exact H].
Qed.

Lemma rstrip_by_split (s : str) :
  exists w, s = rstrip_by p s ++ w /\ forallb p w = true.
Proof.
  unfold rstrip_by. exists (rev (takewhile p (rev s))). split.
  - rewrite <- rev_app_distr, takewhile_lstrip. now rewrite rev_involutive.
  - rewrite forallb_rev. apply takewhile_forallb.
Qed.

Lemma rstrip_by_idem (s : str) : rstrip_by p (rstrip_by p s) = rstrip_by p s.
Proof.
  unfold rstrip_by. rewrite rev_involutive, lstrip_by_idem. reflexivity.
Qed.

(** [rstrip_by] only looks at the end of a text that does not consist
    of [p]-characters alone. *)
Lemma rstrip_by_app_keep (a b : str) :
  rstrip_by p b <> [] -> rstrip_by p (a ++ b) = a ++ rstrip_by p b.
Proof.
  intros H. destruct (rstrip_by_split b) as [w [Eb Hw]].
  destruct (rstrip_by_last b) as [E|[u [c [E Hc]]]]; [contradiction|].
  rewrite Eb at 1. rewrite app_assoc, rstrip_by_app_all by assumption.
  rewrite E, app_assoc. now apply rstrip_by_stop.
Qed.

Lemma lstrip_by_rstrip_by_comm (s : str) :
  lstrip_by p (rstrip_by p s) = rstrip_by p (lstrip_by p s).
Proof.
  destruct (forallb p s) eqn:E.
  - rewrite (rstrip_by_all _ E), (lstrip_by_all _ E). reflexivity.
  - rewrite <- (takewhile_lstrip s) at 1.
    assert (Hne : rstrip_by p (lstrip_by p s) <> []).
    { intros H. destruct (rstrip_by_split (lstrip_by p s)) as [w [Ew Hw]].
      rewrite H in Ew. simpl in Ew.
      rewrite <- (takewhile_lstrip s), forallb_app, takewhile_forallb in E.
      rewrite Ew in E. simpl in E. congruence. }
    rewrite rstrip_by_app_keep by assumption.
    rewrite lstrip_by_app_all by apply takewhile_forallb.
    pose proof (lstrip_by_head s) as Hh.
    destruct (rstrip_by_split (lstrip_by p s)) as [w [Ew Hw]].
    destruct (rstrip_by p (lstrip_by p s)) as [|c u] eqn:Er; [congruence|].
    rewrite Ew in Hh. simpl in Hh. now apply lstrip_by_stop.
Qed.

End StripFacts.

(** * The pattern of the parser *)

Section StarFacts.
Variable R : Type.

(** A greedy star commits to the longest run when every shorter run
    fails as soon as the longest one does. *)
Lemma star_commit (cls : ascii -> bool) (k : str -> option R) (s : str) :
  (forall c u, cls c = true ->
               k (lstrip_by cls (c :: u)) = None -> k (c :: u) = None) ->
  star cls s k = k (lstrip_by cls s).
Proof.
  intros Hk. induction s as [|c t IH]; simpl; [reflexivity|].
  destruct (cls c) eqn:E; [|reflexivity].
  rewrite IH. destruct (k (lstrip_by cls t)) eqn:Ek; [reflexivity|].
  apply Hk; [exact E|]. simpl. now rewrite E.
Qed.

Lemma star_reject (cls : ascii -> bool) (k : str -> option R) (s : str) :
  (forall c u, cls c = true -> k (c :: u) = None) ->
  star cls s k = k (lstrip_by cls s).
Proof. intros Hk. apply star_commit. intros c u Hc _. now apply Hk. Qed.

Lemma star_accept (cls : ascii -> bool) (k : str -> option R) (s : str) :
  (forall u, k u <> None) ->
  star cls s k = k (lstrip_by cls s).
Proof.
  intros Hk. apply star_commit. intros c u _ H. now apply Hk in H.
Qed.

End StarFacts.

Lemma cls_key_not_space (c : ascii) : cls_key c = true -> isspace c = false.
Proof.
  unfold cls_key. intros H. apply andb_prop in H as [H _].
  now apply negb_true_iff in H.
Qed.

Lemma cls_key_not_eq (c : ascii) : cls_key c = true -> cls_eq c = false.
Proof.
  unfold cls_key, cls_eq. intros H. apply andb_prop in H as [_ H].
  now apply negb_true_iff in H.
Qed.

Lemma space_not_key (c : ascii) : isspace c = true -> cls_key c = false.
Proof. unfold cls_key. intros ->. reflexivity. Qed.

Lemma space_not_eq (c : ascii) : isspace c = true -> cls_eq c = false.
Proof.
  unfold cls_eq. destruct (Ascii.eqb_spec c "="); [subst; discriminate | reflexivity].
Qed.

Lemma space_not_comma (c : ascii) : isspace c = true -> cls_comma c = false.
Proof.
  unfold cls_comma. destruct (Ascii.eqb_spec c ","); [subst; discriminate | reflexivity].
Qed.

Section ExecEquations.
Variable R : Type.
Variables (s : str) (caps : list str) (k : str -> list str -> option R).

Lemma exec_Seq (r1 r2 : regex) :
  exec (Seq r1 r2) s caps k
  = exec r1 s caps (fun s' caps' => exec r2 s' caps' k).
Proof. reflexivity. Qed.

Lemma exec_Star (cls : ascii -> bool) :
  exec (Star cls) s caps k = star cls s (fun s' => k s' caps).
Proof. reflexivity. Qed.

Lemma exec_Plus (cls : ascii -> bool) :
  exec (Plus cls) s caps k
  = match s with
    | c :: t => if cls c then star cls t (fun s' => k s' caps) else None
    | [] => None
    end.
Proof. reflexivity. Qed.

Lemma exec_Opt (cls : ascii -> bool) :
  exec (Opt cls) s caps k
  = match s with
    | c :: t =>
        if cls c then
          match k t caps with
          | Some r => Some r
          | None => k s caps
          end
        else k s caps
    | [] => k s caps
    end.
Proof. reflexivity. Qed.

Lemma exec_Group (r : regex) :
  exec (Group r) s caps k
  = exec r s caps
         (fun s' caps' =>
            k s' (caps' ++ [firstn (List.length s - List.length s') s])).
Proof. reflexivity. Qed.

End ExecEquations.

Lemma exec_value_group (s : str) (caps : list str) :
  exec (Group (Star cls_dot)) s caps (fun _ caps' => Some caps')
  = Some (caps ++ [takewhile cls_dot s]).
Proof.
  rewrite exec_Group, exec_Star, star_accept by discriminate.
  now rewrite firstn_takewhile.
Qed.

Lemma exec_eq_tail (s : str) (caps : list str) :
  exec (Seq (Plus cls_eq) (Group (Star cls_dot))) s caps
       (fun _ caps' => Some caps')
  = match s with
    | c :: e =>
        if cls_eq c
        then Some (caps ++ [takewhile cls_dot (lstrip_by cls_eq e)])
        else None
    | [] => None
    end.
Proof.
  rewrite exec_Seq, exec_Plus. destruct s as [|c e]; [reflexivity|].
  destruct (cls_eq c); [|reflexivity].
  rewrite star_accept.
  - apply exec_value_group.
  - intros u. rewrite exec_value_group. discriminate.
Qed.

Lemma exec_space_eq_tail (s : str) (caps : list str) :
  exec (Seq (Star cls_space) (Seq (Plus cls_eq) (Group (Star cls_dot))))
       s caps (fun _ caps' => Some caps')
  = match lstrip_by isspace s with
    | c :: e =>
        if cls_eq c
        then Some (caps ++ [takewhile cls_dot (lstrip_by cls_eq e)])
        else None
    | [] => None
    end.
Proof.
  rewrite exec_Seq, exec_Star. unfold cls_space. rewrite star_reject.
  - apply exec_eq_tail.
  - intros c u Hc. rewrite exec_eq_tail.
    now rewrite (space_not_eq _ Hc).
Qed.

Lemma cons_takewhile_firstn (p : ascii -> bool) (c : ascii) (t : str) :
  firstn (List.length (c :: t) - List.length (lstrip_by p t)) (c :: t)
  = c :: takewhile p t.
Proof.
  pose proof (firstn_takewhile p t) as H.
  pose proof (takewhile_lstrip p t) as H2.
  assert (List.length (lstrip_by p t) <= List.length t)%nat.
  { rewrite <- H2 at 2. rewrite length_app. lia. }
  simpl List.length.
  replace (S (List.length t) - List.length (lstrip_by p t))%nat
    with (S (List.length t - List.length (lstrip_by p t))) by lia.
  simpl. now rewrite H.
Qed.

Lemma exec_key_tail (s : str) :
  exec key_tail s [] (fun _ caps' => Some caps') = match_key s.
Proof.
  unfold key_tail, match_key.
  rewrite exec_Seq, exec_Group, exec_Plus.
  destruct s as [|c t]; [reflexivity|].
  cbn [takewhile lstrip_by]. destruct (cls_key c) eqn:Ec; [|reflexivity].
  rewrite star_reject.
  - rewrite exec_space_eq_tail, cons_takewhile_firstn. reflexivity.
  - intros c' u Hc'. rewrite exec_space_eq_tail.
    rewrite lstrip_by_stop by now apply cls_key_not_space.
    now rewrite (cls_key_not_eq _ Hc').
Qed.

Lemma match_key_space (c : ascii) (u : str) :
  isspace c = true -> match_key (c :: u) = None.
Proof.
  intros H. unfold match_key. simpl. now rewrite (space_not_key _ H).
Qed.

Lemma exec_space_key_tail (s : str) :
  exec (Seq (Star cls_space) key_tail) s [] (fun _ caps' => Some caps')
  = match_key (lstrip_by isspace s).
Proof.
  rewrite exec_Seq, exec_Star. unfold cls_space. rewrite star_reject.
  - apply exec_key_tail.
  - intros c u Hc. rewrite exec_key_tail. now apply match_key_space.
Qed.

Lemma exec_comma_key_tail (u : str) :
  exec (Seq (Opt cls_comma) (Seq (Star cls_space) key_tail)) u []
       (fun _ caps' => Some caps')
  = match u with
    | c :: t =>
        if cls_comma c then
          match match_key (lstrip_by isspace t) with
          | Some r => Some r
          | None => match_key (lstrip_by isspace u)
          end
        else match_key (lstrip_by isspace u)
    | [] => match_key (lstrip_by isspace u)
    end.
Proof.
  rewrite exec_Seq, exec_Opt. destruct u as [|c t].
  - apply exec_space_key_tail.
  - destruct (cls_comma c); rewrite ?exec_space_key_tail; reflexivity.
Qed.

(** The backtracking match of the pattern is the scan [match_kv]. *)
Lemma re_match_kv (s : str) : re_match kv_regex s = match_kv s.
Proof.
  unfold re_match, kv_regex. fold key_tail.
  rewrite exec_Seq, exec_Star. unfold cls_space. rewrite star_commit.
  - rewrite exec_comma_key_tail. unfold match_kv.
    pose proof (lstrip_by_head isspace s) as Hh.
    destruct (lstrip_by isspace s) as [|c t] eqn:E; [reflexivity|].
    rewrite (lstrip_by_stop _ _ _ Hh). reflexivity.
  - intros c u Hc. rewrite !exec_comma_key_tail.
    rewrite (space_not_comma _ Hc).
    pose proof (lstrip_by_head isspace (c :: u)) as Hh.
    destruct (lstrip_by isspace (c :: u)) as [|c' t'] eqn:E.
    + intros H. exact H.
    + rewrite (lstrip_by_stop _ _ _ Hh).
      destruct (cls_comma c').
      * destruct (match_key (lstrip_by isspace t')); [discriminate|].
        intros H; exact H.
      * intros H; exact H.
Qed.

(** * The line parser *)

Lemma contains_app (c : ascii) (a b : str) :
  contains c (a ++ b) = contains c a || contains c b.
Proof. unfold contains. apply existsb_app. Qed.

Lemma contains_cons_same (c : ascii) (s : str) : contains c (c :: s) = true.
Proof. unfold contains. simpl. now rewrite Ascii.eqb_refl. Qed.

Lemma contains_false_forallb (c : ascii) (s : str) :
  contains c s = false <-> forallb (fun x => negb (Ascii.eqb c x)) s = true.
Proof.
  unfold contains. induction s as [|x s IH]; simpl; [tauto|].
  rewrite orb_false_iff, andb_true_iff, negb_true_iff. tauto.
Qed.

Lemma split_first_at (c : ascii) (pre post : str) :
  contains c pre = false -> split_first c (pre ++ c :: post) = (pre, post).
Proof.
  induction pre as [|x pre IH]; simpl.
  - now rewrite Ascii.eqb_refl.
  - unfold contains. simpl. intros H. apply orb_false_iff in H as [Hx Hp].
    rewrite Ascii.eqb_sym in Hx. rewrite Hx.
    unfold contains in IH. now rewrite (IH Hp).
Qed.

(** A text in which [c] occurs splits at the first occurrence. *)
Lemma contains_split (c : ascii) (s : str) :
  contains c s = true ->
  exists pre post, s = pre ++ c :: post /\ contains c pre = false.
Proof.
  induction s as [|x s IH]; [discriminate|].
  unfold contains. simpl. destruct (Ascii.eqb_spec c x) as [->|Hne].
  - intros _. exists [], s. now split.
  - simpl. intros H. destruct (IH H) as [pre [post [E Hp]]].
    exists (x :: pre), post. split; [now rewrite E|].
    unfold contains. simpl. destruct (Ascii.eqb_spec c x); [contradiction|].
    exact Hp.
Qed.

Lemma value_part_no_bang (line : str) : contains "!" line = false -> value_part line = line.
Proof. unfold value_part. now intros ->. Qed.

Lemma value_part_at (pre post : str) :
  contains "!" pre = false -> value_part (pre ++ "!" :: post) = pre.
Proof.
  intros H. unfold value_part.
  rewrite contains_app, contains_cons_same, orb_true_r.
  now rewrite split_first_at.
Qed.

Lemma comment_of_no_bang (line : str) : contains "!" line = false -> comment_of line = [].
Proof. unfold comment_of. now intros ->. Qed.

Lemma comment_of_at (pre post : str) :
  contains "!" pre = false ->
  comment_of (pre ++ "!" :: post) = lit " ! " ++ strip post.
Proof.
  intros H. unfold comment_of.
  rewrite contains_app, contains_cons_same, orb_true_r.
  now rewrite split_first_at.
Qed.

Lemma value_part_clean (line : str) : contains "!" (value_part line) = false.
Proof.
  destruct (contains "!" line) eqn:E.
  - destruct (contains_split _ _ E) as [pre [post [-> Hp]]].
    now rewrite value_part_at.
  - now rewrite value_part_no_bang.
Qed.

(** The parser in terms of the scan. *)
Lemma parse_unfold (line : str) :
  parse_key_val_pair line =
  match match_kv (value_part line) with
  | Some caps =>
      Ok (group caps 1, trim_value (group caps 2), comment_of line)
  | None => Raise (ValueError (lit "No key matched in " ++ line))
  end.
Proof.
  unfold parse_key_val_pair, value_part, comment_of, trim_value.
  destruct (contains "!" line).
  - destruct (split_first "!" line) as [v c]. simpl.
    rewrite re_match_kv. reflexivity.
  - rewrite re_match_kv. reflexivity.
Qed.

Lemma match_key_shape (u : str) (caps : list str) :
  match_key u = Some caps ->
  exists tail,
    caps = [takewhile cls_key u; takewhile cls_dot (lstrip_by cls_eq tail)] /\
    takewhile cls_key u <> [] /\
    lstrip_by isspace (lstrip_by cls_key u) = "=" :: tail.
Proof.
  unfold match_key. destruct (takewhile cls_key u) as [|k ks] eqn:Ek; [discriminate|].
  destruct (lstrip_by isspace (lstrip_by cls_key u)) as [|c e] eqn:Ee; [discriminate|].
  unfold cls_eq at 1. destruct (Ascii.eqb_spec c "="); [|discriminate].
  subst c. intros H. injection H as <-. exists e. repeat split. discriminate.
Qed.

(** A successful scan yields exactly the two groups. *)
Lemma match_kv_shape (s : str) (caps : list str) :
  match_kv s = Some caps ->
  exists u tail,
    caps = [takewhile cls_key u; takewhile cls_dot (lstrip_by cls_eq tail)] /\
    takewhile cls_key u <> [] /\
    lstrip_by isspace (lstrip_by cls_key u) = "=" :: tail /\
    (lstrip_by isspace s = u \/
     exists t, lstrip_by isspace s = "," :: t /\ u = lstrip_by isspace t).
Proof.
  unfold match_kv. destruct (lstrip_by isspace s) as [|c t] eqn:Es; [discriminate|].
  unfold cls_comma. destruct (Ascii.eqb_spec c ",") as [->|Hc].
  - destruct (match_key (lstrip_by isspace t)) eqn:Em.
    + intros H. injection H as <-.
      destruct (match_key_shape _ _ Em) as [tail [E1 [E2 E3]]].
      exists (lstrip_by isspace t), tail. repeat split; try assumption.
      right. now exists t.
    + intros Em2. destruct (match_key_shape _ _ Em2) as [tail [E1 [E2 E3]]].
      exists ("," :: t), tail. repeat split; try assumption. now left.
  - intros Em2. destruct (match_key_shape _ _ Em2) as [tail [E1 [E2 E3]]].
    exists (c :: t), tail. repeat split; try assumption. now left.
Qed.

(** Parts of a text inherit every property of its characters. *)
Section Parts.
Variables q p : ascii -> bool.

Lemma forallb_lstrip_by (s : str) :
  forallb q s = true -> forallb q (lstrip_by p s) = true.
Proof.
  rewrite <- (takewhile_lstrip p s) at 1. rewrite forallb_app.
  intros H. now apply andb_prop in H.
Qed.

Lemma forallb_takewhile (s : str) :
  forallb q s = true -> forallb q (takewhile p s) = true.
Proof.
  rewrite <- (takewhile_lstrip p s) at 1. rewrite forallb_app.
  intros H. now apply andb_prop in H.
Qed.

Lemma forallb_rstrip_by (s : str) :
  forallb q s = true -> forallb q (rstrip_by p s) = true.
Proof.
  destruct (rstrip_by_split p s) as [w [E _]]. rewrite E at 1.
  rewrite forallb_app. intros H. now apply andb_prop in H.
Qed.

Lemma forallb_strip_by (s : str) :
  forallb q s = true -> forallb q (strip_by p s) = true.
Proof.
  intros H. unfold strip_by. now apply forallb_rstrip_by, forallb_lstrip_by.
Qed.

End Parts.

Lemma forallb_cons_tail (q : ascii -> bool) (c : ascii) (s : str) :
  forallb q (c :: s) = true -> forallb q s = true.
Proof. simpl. intros H. now apply andb_prop in H. Qed.

(** The fields of a parsed line: the key is a non-empty run of key
    characters, the comment is the one the first lines compute, and key
    and value are made of characters of the text before the comment. *)
Lemma parse_ok_fields (line key value comment : str) :
  parse_key_val_pair line = Ok (key, value, comment) ->
  key <> [] /\ forallb cls_key key = true /\ comment = comment_of line /\
  forall q, forallb q (value_part line) = true ->
            forallb q key = true /\ forallb q value = true.
Proof.
  rewrite parse_unfold.
  destruct (match_kv (value_part line)) as [caps|] eqn:Em; [|discriminate].
  destruct (match_kv_shape _ _ Em) as [u [tail [-> [Hk [Ht Hu]]]]].
  unfold group. simpl. intros H. injection H as <- <- <-.
  split; [exact Hk|]. split; [apply takewhile_forallb|]. split; [reflexivity|].
  intros q Hq.
  assert (Hqu : forallb q u = true).
  { destruct Hu as [<-|[t [Et ->]]].
    - now apply forallb_lstrip_by.
    - apply forallb_lstrip_by. apply (forallb_cons_tail q ",").
      rewrite <- Et. now apply forallb_lstrip_by. }
  split; [now apply forallb_takewhile|].
  unfold trim_value, strip, rstrip_chars.
  apply forallb_strip_by, forallb_rstrip_by, forallb_takewhile, forallb_lstrip_by.
  apply (forallb_cons_tail q "="). rewrite <- Ht.
  now apply forallb_lstrip_by, forallb_lstrip_by.
Qed.

(** C10. The parser splits the line at its first [!] before anything
    else, quotes included: for a text [pre] without [!], the key and
    the value of [pre ! post] are those of [pre] alone, the value holds
    no [!], and everything after the [!] (stripped) is the comment,
    whether or not the [!] stood inside a quoted string. *)
Theorem parse_splits_at_first_bang (pre post : str) :
  contains "!" pre = false ->
  match parse_key_val_pair pre with
  | Ok (key, value, _) =>
      parse_key_val_pair (pre ++ "!" :: post)
      = Ok (key, value, lit " ! " ++ strip post)
      /\ contains "!" value = false
  | Raise _ =>
      parse_key_val_pair (pre ++ "!" :: post)
      = Raise (ValueError (lit "No key matched in " ++ pre ++ "!" :: post))
  end.
Proof.
  intros Hpre.
  destruct (parse_key_val_pair pre) as [[[key value] comment]|e] eqn:Ep.
  - destruct (parse_ok_fields _ _ _ _ Ep) as [_ [_ [_ Hq]]].
    rewrite (value_part_no_bang _ Hpre) in Hq.
    apply contains_false_forallb in Hpre.
    destruct (Hq _ Hpre) as [_ Hv]. apply contains_false_forallb in Hv.
    split; [|exact Hv].
    rewrite parse_unfold in Ep. rewrite parse_unfold.
    apply contains_false_forallb in Hpre.
    rewrite (value_part_no_bang _ Hpre) in Ep.
    rewrite (value_part_at _ post Hpre), (comment_of_at _ post Hpre).
    destruct (match_kv pre); [|discriminate].
    injection Ep as <- <- _. reflexivity.
  - rewrite parse_unfold in Ep. rewrite parse_unfold.
    rewrite (value_part_no_bang _ Hpre) in Ep.
    rewrite (value_part_at _ post Hpre).
    destruct (match_kv pre); [discriminate|]. reflexivity.
Qed.

Lemma parse_splits_at_first_bang_witness :
  contains "!" (lit "a = 'hi") = false /\
  parse_key_val_pair (lit "a = 'hi!there'")
  = Ok (lit "a", lit "'hi", lit " ! there'").
Proof.
  split; [reflexivity|].
  exact (proj1 (parse_splits_at_first_bang (lit "a = 'hi") (lit "there'") eq_refl)).
Defined.

Lemma forallb_cls_eq_shape (eqs : str) :
  eqs <> [] -> forallb cls_eq eqs = true -> exists eqs', eqs = "=" :: eqs'.
Proof.
  destruct eqs as [|c eqs']; [congruence|]. intros _. simpl. intros H.
  apply andb_prop in H as [H _]. unfold cls_eq in H.
  apply Ascii.eqb_eq in H. subst c. now exists eqs'.
Qed.

(** The scan on a text laid out as key, whitespace, [=] signs. *)
Lemma match_key_layout (key ws3 eqs' rest : str) :
  key <> [] -> forallb cls_key key = true -> forallb isspace ws3 = true ->
  match_key (key ++ ws3 ++ "=" :: eqs' ++ rest)
  = Some [key; takewhile cls_dot (lstrip_by cls_eq (eqs' ++ rest))].
Proof.
  intros Hne Hk Hw. unfold match_key.
  assert (Hstop : takewhile cls_key (ws3 ++ "=" :: eqs' ++ rest) = []
                  /\ lstrip_by cls_key (ws3 ++ "=" :: eqs' ++ rest)
                     = ws3 ++ "=" :: eqs' ++ rest).
  { destruct ws3 as [|w ws3]; simpl; [now split|].
    simpl in Hw. apply andb_prop in Hw as [Hw _].
    now rewrite (space_not_key _ Hw). }
  destruct Hstop as [Ht Hl].
  rewrite takewhile_app_all, Ht, app_nil_r by assumption.
  rewrite lstrip_by_app_all, Hl by assumption.
  rewrite lstrip_by_app_all by assumption.
  destruct key as [|k ks]; [congruence|]. simpl. reflexivity.
Qed.

Lemma matches_pattern_scan (s : str) :
  matches_pattern s <-> exists caps, match_kv s = Some caps.
Proof.
  split.
  - intros (ws1 & comma & ws2 & key & ws3 & eqs & rest & -> & H1 & Hc & H2
            & Hne & Hk & H3 & Hen & He).
    destruct (forallb_cls_eq_shape _ Hen He) as [eqs' ->].
    cbn [app]. unfold match_kv. rewrite lstrip_by_app_all by assumption.
    pose proof (match_key_layout _ _ eqs' rest Hne Hk H3) as Hm.
    assert (Hkey : lstrip_by isspace
                     (ws2 ++ key ++ ws3 ++ "=" :: eqs' ++ rest)
                   = key ++ ws3 ++ "=" :: eqs' ++ rest).
    { rewrite lstrip_by_app_all by assumption.
      destruct key as [|k ks]; [congruence|]. simpl in Hk.
      apply andb_prop in Hk as [Hk _]. simpl.
      now rewrite (cls_key_not_space _ Hk). }
    destruct Hc as [->| ->]; cbn [app].
    + rewrite Hkey.
      destruct key as [|k ks]; [congruence|]. cbn [app] in *.
      destruct (cls_comma k).
      * destruct (match_key (lstrip_by isspace (ks ++ ws3 ++ "=" :: eqs' ++ rest)));
          eauto.
      * eauto.
    + cbn [lstrip_by]. replace (isspace ",") with false by reflexivity.
      replace (cls_comma ",") with true by reflexivity.
      rewrite Hkey, Hm. eauto.
  - intros [caps Hm].
    destruct (match_kv_shape _ _ Hm) as [u [tail [_ [Hk [Ht Hu]]]]].
    assert (Eu : u = takewhile cls_key u
                     ++ takewhile isspace (lstrip_by cls_key u)
                     ++ "=" :: tail).
    { rewrite <- (takewhile_lstrip cls_key u) at 1. f_equal.
      rewrite <- (takewhile_lstrip isspace (lstrip_by cls_key u)) at 1.
      now rewrite Ht. }
    destruct Hu as [Hu|[t [Et Hu]]].
    + exists (takewhile isspace s), [], [], (takewhile cls_key u),
        (takewhile isspace (lstrip_by cls_key u)), ["="], tail.
      repeat split; try apply takewhile_forallb; try assumption;
        try discriminate; auto.
      cbn [app]. rewrite <- Eu, <- Hu. symmetry. apply takewhile_lstrip.
    + exists (takewhile isspace s), [","], (takewhile isspace t),
        (takewhile cls_key u), (takewhile isspace (lstrip_by cls_key u)),
        ["="], tail.
      repeat split; try apply takewhile_forallb; try assumption;
        try discriminate; auto.
      cbn [app]. rewrite <- Eu, Hu, takewhile_lstrip, <- Et.
      symmetry. apply takewhile_lstrip.
Qed.

Lemma parse_raises_iff (line : str) :
  (exists msg, parse_key_val_pair line = Raise (ValueError msg))
  <-> ~ matches_pattern (value_part line).
Proof.
  rewrite parse_unfold, matches_pattern_scan.
  destruct (match_kv (value_part line)) as [caps|].
  - split.
    + intros [msg H]. discriminate.
    + intros H. exfalso. apply H. now exists caps.
  - split.
    + intros _ [caps H]. discriminate.
    + intros _. eexists. reflexivity.
Qed.

(** C4. The parser raises its [ValueError] exactly when the text before
    the first [!] (the whole line when it has none) does not match the
    pattern at its head: whitespace, at most one comma, a key of
    characters that are neither whitespace nor [=], one or more [=],
    with whitespace allowed between these as the pattern of the source
    has it.  When the parser returns, the comment is empty for a line
    without [!] and otherwise " ! " followed by the stripped text after
    the first [!]. *)
Theorem parse_error_iff_no_match (line : str) :
  (contains "!" line = false ->
     ((exists msg, parse_key_val_pair line = Raise (ValueError msg))
      <-> ~ matches_pattern line)) /\
  (forall pre post, line = pre ++ "!" :: post -> contains "!" pre = false ->
     ((exists msg, parse_key_val_pair line = Raise (ValueError msg))
      <-> ~ matches_pattern pre)) /\
  (forall key value comment,
     parse_key_val_pair line = Ok (key, value, comment) ->
     (contains "!" line = false -> comment = []) /\
     (forall pre post, line = pre ++ "!" :: post -> contains "!" pre = false ->
        comment = lit " ! " ++ strip post)).
Proof.
  split; [|split].
  - intros H. rewrite parse_raises_iff, (value_part_no_bang _ H). tauto.
  - intros pre post -> H.
    rewrite parse_raises_iff, (value_part_at _ post H). tauto.
  - intros key value comment Hp.
    destruct (parse_ok_fields _ _ _ _ Hp) as [_ [_ [-> _]]]. split.
    + apply comment_of_no_bang.
    + intros pre post -> H. now apply comment_of_at.
Qed.

(** * The key scanner *)

Lemma max_from_acc (d n : Z) (l : list Z) :
  max_from (Z.max d n) l = Z.max n (max_from d l).
Proof.
  unfold max_from. induction l as [|x l IH]; simpl; [apply Z.max_comm|].
  rewrite IH. lia.
Qed.

Lemma max_from_ge (d : Z) (l : list Z) :
  (d <= max_from d l)%Z /\ forall n, In n l -> (n <= max_from d l)%Z.
Proof.
  unfold max_from. induction l as [|x l [IHd IHl]]; simpl.
  - split; [lia | tauto].
  - split; [lia|]. intros n [->|H]; [lia|]. specialize (IHl n H). lia.
Qed.

Lemma max_from_attained (d : Z) (l : list Z) :
  max_from d l = d \/ In (max_from d l) l.
Proof.
  unfold max_from. induction l as [|x l IH]; simpl; [now left|].
  destruct (Z.max_spec x (fold_right Z.max d l)) as [[_ ->]|[_ ->]].
  - destruct IH as [IH|IH]; [now left | right; now right].
  - right; now left.
Qed.

Lemma in_key_lengths (lines : list str) (n : Z) :
  In n (key_lengths lines) <->
  exists line, In line lines /\ key_length line = Some n.
Proof.
  unfold key_lengths. rewrite in_flat_map. split.
  - intros [line [Hin Hn]]. exists line. split; [exact Hin|].
    destruct (key_length line); simpl in Hn; [|contradiction].
    destruct Hn as [->|[]]. reflexivity.
  - intros [line [Hin Hk]]. exists line. split; [exact Hin|].
    rewrite Hk. now left.
Qed.

Lemma key_length_parse (line : str) (n : Z) :
  key_length line = Some n <->
  exists key value comment,
    parse_key_val_pair line = Ok (key, value, comment) /\ n = len key.
Proof.
  unfold key_length.
  destruct (parse_key_val_pair line) as [[[k v] c]|e]; split.
  - intros H. injection H as <-. now exists k, v, c.
  - intros (k' & v' & c' & H & ->). now injection H as -> _ _.
  - discriminate.
  - intros (k' & v' & c' & H & _). discriminate.
Qed.

(** A parsed key is never empty, so its length is positive. *)
Lemma key_length_pos (line : str) (n : Z) :
  key_length line = Some n -> (1 <= n)%Z.
Proof.
  intros H. apply key_length_parse in H as (k & v & c & Hp & ->).
  destruct (parse_ok_fields _ _ _ _ Hp) as [Hne _].
  destruct k; [congruence|]. unfold len. simpl List.length. lia.
Qed.

(** The loop of the scanner, started at [acc]. *)
Lemma longest_loop (acc : Z) (lines : list str) :
  for_each
    (fun longest_key line =>
       match parse_key_val_pair line with
       | Raise (ValueError _) => Ok longest_key
       | Ok (key, _, _) =>
           if (len key >? longest_key)%Z then Ok (len key) else Ok longest_key
       end) acc lines
  = Ok (max_from acc (key_lengths lines)).
Proof.
  revert acc. induction lines as [|line lines IH]; intros acc; [reflexivity|].
  cbn [for_each]. unfold key_lengths. cbn [flat_map]. fold (key_lengths lines).
  unfold key_length.
  destruct (parse_key_val_pair line) as [[[k v] c]|[msg]]; cbn [bind].
  - destruct (Z.gtb_spec (len k) acc); cbn [bind]; rewrite IH; f_equal;
      cbn [app]; unfold max_from; cbn [fold_right]; fold (max_from acc (key_lengths lines)).
    + replace (len k) with (Z.max acc (len k)) at 1 by lia.
      apply max_from_acc.
    + pose proof (max_from_ge acc (key_lengths lines)) as [Hge _]. lia.
  - rewrite IH. reflexivity.
Qed.

Lemma find_longest_key_eq (content : str) :
  find_longest_key content
  = Ok (max_from (-1) (key_lengths (splitlines content))).
Proof. unfold find_longest_key. apply longest_loop. Qed.

(** C8. The scanner never raises: it returns the largest key length
    among the lines the parser accepts, an upper bound of all of them
    that one of them attains, and -1 exactly when the parser accepts no
    line. *)
Theorem find_longest_key_spec (content : str) :
  exists n,
    find_longest_key content = Ok n /\
    n = max_from (-1) (key_lengths (splitlines content)) /\
    (forall line key value comment,
       In line (splitlines content) ->
       parse_key_val_pair line = Ok (key, value, comment) ->
       (len key <= n)%Z) /\
    ((exists line key value comment,
        In line (splitlines content) /\
        parse_key_val_pair line = Ok (key, value, comment) /\
        n = len key)
     \/ (n = (-1)%Z /\
         forall line, In line (splitlines content) ->
                      exists msg, parse_key_val_pair line = Raise (ValueError msg))).
Proof.
  exists (max_from (-1) (key_lengths (splitlines content))).
  split; [apply find_longest_key_eq|]. split; [reflexivity|]. split.
  - intros line key value comment Hin Hp.
    apply (proj2 (max_from_ge _ _)). apply in_key_lengths.
    exists line. split; [exact Hin|]. apply key_length_parse. eauto.
  - destruct (key_lengths (splitlines content)) as [|k ks] eqn:Ek.
    + right. split; [reflexivity|]. intros line Hin.
      destruct (parse_key_val_pair line) as [[[k v] c]|[msg]] eqn:Ep; [|eauto].
      exfalso. assert (H : In (len k) (key_lengths (splitlines content))).
      { apply in_key_lengths. exists line. split; [exact Hin|].
        apply key_length_parse. eauto. }
      rewrite Ek in H. exact H.
    + left. rewrite <- Ek.
      destruct (max_from_attained (-1) (key_lengths (splitlines content))) as [H|H].
      * exfalso. assert (Hk : In k (key_lengths (splitlines content))).
        { rewrite Ek. now left. }
        pose proof (proj2 (max_from_ge (-1) _) _ Hk) as Hle.
        apply in_key_lengths in Hk as [line [_ Hk]].
        apply key_length_pos in Hk. lia.
      * apply in_key_lengths in H as [line [Hin Hk]].
        apply key_length_parse in Hk as (key & value & comment & Hp & Hn).
        exists line, key, value, comment. auto.
Qed.

(** * The loop of the document formatter *)

Lemma str_eqb_eq (a b : str) : str_eqb a b = true <-> a = b.
Proof.
  unfold str_eqb. destruct (list_eq_dec ascii_dec a b); split; congruence.
Qed.

Lemma str_eqb_refl (a : str) : str_eqb a a = true.
Proof. now apply str_eqb_eq. Qed.

Lemma str_eqb_neq (a b : str) : str_eqb a b = false <-> a <> b.
Proof.
  unfold str_eqb. destruct (list_eq_dec ascii_dec a b); split; congruence.
Qed.

Section StripNesting.
Variables p q : ascii -> bool.
Hypothesis q_sub_p : forall c, q c = true -> p c = true.

Lemma forallb_sub (s : str) : forallb q s = true -> forallb p s = true.
Proof.
  induction s as [|c s IH]; simpl; [reflexivity|].
  intros H. apply andb_prop in H as [Hc Hs].
  now rewrite (q_sub_p _ Hc), IH.
Qed.

Lemma lstrip_by_nested (s : str) : lstrip_by p (lstrip_by q s) = lstrip_by p s.
Proof.
  rewrite <- (takewhile_lstrip q s) at 2.
  rewrite lstrip_by_app_all; [reflexivity|].
  apply forallb_sub, takewhile_forallb.
Qed.

Lemma rstrip_by_nested (s : str) : rstrip_by p (rstrip_by q s) = rstrip_by p s.
Proof.
  destruct (rstrip_by_split q s) as [w [E Hw]]. rewrite E at 2.
  rewrite rstrip_by_app_all; [reflexivity|]. now apply forallb_sub.
Qed.

Lemma rstrip_by_cons_keep (c : ascii) (r : str) :
  q c = false -> rstrip_by q (c :: r) = c :: rstrip_by q r.
Proof.
  intros Hc. destruct (rstrip_by q r) as [|x u] eqn:E.
  - destruct (rstrip_by_split q r) as [w [Ew Hw]]. rewrite E in Ew.
    simpl in Ew. subst w. change (c :: r) with ([c] ++ r).
    rewrite rstrip_by_app_all by assumption.
    now apply (rstrip_by_stop q []).
  - change (c :: r) with ([c] ++ r). rewrite rstrip_by_app_keep.
    + now rewrite E.
    + now rewrite E.
Qed.

Lemma lstrip_by_rstrip_by_nested (s : str) :
  lstrip_by p (rstrip_by q s) = rstrip_by q (lstrip_by p s).
Proof.
  induction s as [|c r IH]; [reflexivity|].
  cbn [lstrip_by]. destruct (p c) eqn:Ep.
  - rewrite <- IH. destruct (q c) eqn:Eq.
    + destruct (rstrip_by q r) as [|x u] eqn:E.
      * destruct (rstrip_by_split q r) as [w [Ew Hw]]. rewrite E in Ew.
        simpl in Ew. subst w.
        rewrite (rstrip_by_all q (c :: r)); [reflexivity|].
        simpl. now rewrite Eq.
      * change (c :: r) with ([c] ++ r). rewrite rstrip_by_app_keep.
        -- rewrite E. simpl. now rewrite Ep.
        -- now rewrite E.
    + rewrite rstrip_by_cons_keep by assumption. simpl. now rewrite Ep.
  - assert (Eq : q c = false).
    { destruct (q c) eqn:Eq; [|reflexivity].
      apply q_sub_p in Eq. congruence. }
    rewrite rstrip_by_cons_keep by assumption. simpl. now rewrite Ep.
Qed.

End StripNesting.


Lemma is_nl_space (c : ascii) : is_nl c = true -> isspace c = true.
Proof.
  unfold is_nl, contains. simpl. rewrite orb_false_r.
  intros H. apply Ascii.eqb_eq in H. now subst c.
Qed.

Lemma clean_eq (line : str) : clean line = rstrip (lstrip_by is_nl line).
Proof.
  unfold clean, strip_chars, strip_by, rstrip. fold is_nl.
  apply rstrip_by_nested. exact is_nl_space.
Qed.

Lemma strip_clean (line : str) : strip (clean line) = strip line.
Proof.
  rewrite clean_eq. unfold strip, strip_by, rstrip.
  rewrite lstrip_by_rstrip_by_comm, rstrip_by_idem.
  rewrite lstrip_by_nested by exact is_nl_space. reflexivity.
Qed.

Lemma strip_blank (line : str) : forallb isspace line = true -> strip line = [].
Proof.
  intros H. unfold strip, strip_by. now rewrite (lstrip_by_all _ _ H).
Qed.

Lemma clean_blank (line : str) : forallb isspace line = true -> clean line = [].
Proof.
  intros H. rewrite clean_eq. apply rstrip_by_all.
  now apply forallb_lstrip_by.
Qed.

(** The body of the loop, seen through [step]. *)
Lemma format_nml_body_step (cfg : config) (align : Z) (st : loop_state)
      (line : str) :
  format_nml_body cfg align st line
  = r <- step cfg align (in_block st) line ;; Ok (extend st r).
Proof.
  unfold format_nml_body, step, classify. fold (clean line).
  destruct st as [b ml]. unfold extend, append_line, set_block. cbn [in_block mod_lines].
  destruct (startswith (lit "&") (strip (clean line))); [reflexivity|].
  destruct (str_eqb (strip (clean line)) (lit "/")).
  { cbn [bind fst snd]. now rewrite <- app_assoc. }
  destruct (str_eqb (clean line) []).
  { destruct (keep_whitelines cfg && b); cbn [bind fst snd];
      [reflexivity | now rewrite app_nil_r]. }
  destruct (startswith (lit "!") (strip (clean line))).
  { destruct (keep_comments cfg); cbn [bind fst snd];
      [reflexivity | now rewrite app_nil_r]. }
  destruct (format_line (clean line) align (block_indent cfg)
                        (trailing_comma cfg) (keep_comments cfg));
    reflexivity.
Qed.

Lemma extend_extend (st : loop_state) (b1 b2 : bool) (o1 o2 : list str) :
  extend (extend st (b1, o1)) (b2, o2) = extend st (b2, o1 ++ o2).
Proof. unfold extend. cbn. now rewrite app_assoc. Qed.

Lemma for_each_run (cfg : config) (align : Z) (lines : list str)
      (st : loop_state) :
  for_each (format_nml_body cfg align) st lines
  = r <- run cfg align (in_block st) lines ;; Ok (extend st r).
Proof.
  revert st. induction lines as [|line rest IH]; intros st.
  - cbn. unfold extend. cbn. rewrite app_nil_r. now destruct st.
  - cbn [for_each run]. rewrite format_nml_body_step.
    destruct (step cfg align (in_block st) line) as [[b1 o1]|e]; [|reflexivity].
    cbn [bind]. rewrite IH. cbn [extend in_block fst].
    destruct (run cfg align b1 rest) as [[b2 o2]|e]; [|reflexivity].
    cbn [bind]. now rewrite extend_extend.
Qed.

Lemma for_each_app {S A : Type} (body : S -> A -> result S) (st : S)
      (xs ys : list A) :
  for_each body st (xs ++ ys)
  = st1 <- for_each body st xs ;; for_each body st1 ys.
Proof.
  revert st. induction xs as [|x xs IH]; intros st; [reflexivity|].
  cbn [app for_each]. destruct (body st x); [apply IH | reflexivity].
Qed.

Lemma run_app (cfg : config) (align : Z) (b : bool) (xs ys : list str) :
  run cfg align b (xs ++ ys)
  = '(b1, o1) <- run cfg align b xs ;;
    '(b2, o2) <- run cfg align b1 ys ;;
    Ok (b2, o1 ++ o2).
Proof.
  revert b. induction xs as [|x xs IH]; intros b.
  - cbn. destruct (run cfg align b ys) as [[b2 o2]|e]; reflexivity.
  - cbn [app run]. destruct (step cfg align b x) as [[b1 o1]|e]; [|reflexivity].
    cbn [bind]. rewrite IH.
    destruct (run cfg align b1 xs) as [[b2 o2]|e]; [|reflexivity].
    cbn [bind]. destruct (run cfg align b2 ys) as [[b3 o3]|e]; [|reflexivity].
    cbn [bind]. now rewrite app_assoc.
Qed.

(** * The branches of the document formatter *)

Lemma classify_close (line : str) :
  strip line = lit "/" -> classify line = BlockClose.
Proof.
  intros H. unfold classify. rewrite strip_clean, H. reflexivity.
Qed.

Lemma classify_blank (line : str) :
  forallb isspace line = true -> classify line = Blank.
Proof.
  intros H. unfold classify.
  rewrite strip_clean, (strip_blank _ H), (clean_blank _ H). reflexivity.
Qed.

(** C7. A line whose stripped content is [/] closes the block: whatever
    the options and the state, the body clears the block flag and
    appends [/] and one empty line; in the loop, the lines after it are
    processed from that state. *)
Theorem block_close_emits_separator (cfg : config) (align : Z)
        (st : loop_state) (line : str) :
  strip line = lit "/" ->
  format_nml_body cfg align st line
  = Ok {| in_block := false; mod_lines := mod_lines st ++ [lit "/"; []] |}
  /\
  forall (st0 : loop_state) (pre post : list str),
    for_each (format_nml_body cfg align) st0 (pre ++ line :: post)
    = st1 <- for_each (format_nml_body cfg align) st0 pre ;;
      for_each (format_nml_body cfg align)
               {| in_block := false;
                  mod_lines := mod_lines st1 ++ [lit "/"; []] |} post.
Proof.
  intros H.
  assert (Hbody : forall st', format_nml_body cfg align st' line
    = Ok {| in_block := false; mod_lines := mod_lines st' ++ [lit "/"; []] |}).
  { intros st'. rewrite format_nml_body_step. unfold step.
    rewrite (classify_close _ H), strip_clean, H. reflexivity. }
  split; [apply Hbody|].
  intros st0 pre post. rewrite for_each_app.
  destruct (for_each (format_nml_body cfg align) st0 pre) as [st1|e];
    [|reflexivity].
  cbn [bind for_each]. now rewrite Hbody.
Qed.

Lemma block_close_emits_separator_witness :
  strip (lit "  /  ") = lit "/" /\
  format_nml_body default_config 6 {| in_block := true; mod_lines := [lit "&a"] |}
                  (lit "  /  ")
  = Ok {| in_block := false; mod_lines := [lit "&a"; lit "/"; []] |}.
Proof.
  split; [reflexivity|].
  exact (proj1 (block_close_emits_separator default_config 6
                  {| in_block := true; mod_lines := [lit "&a"] |}
                  (lit "  /  ") eq_refl)).
Defined.

(** C5. A blank line (empty or of whitespace only) is dropped outside
    a block whatever the options; inside a block it is kept, as an
    empty line, exactly when [keep_whitelines] is set.  The block flag
    never changes; in the loop, the lines after it are processed from
    the resulting state. *)
Theorem blank_line_policy (cfg : config) (align : Z) (st : loop_state)
        (line : str) :
  forallb isspace line = true ->
  format_nml_body cfg align st line
  = Ok (if in_block st
        then (if keep_whitelines cfg then append_line st [] else st)
        else st)
  /\
  forall (st0 : loop_state) (pre post : list str),
    for_each (format_nml_body cfg align) st0 (pre ++ line :: post)
    = st1 <- for_each (format_nml_body cfg align) st0 pre ;;
      for_each (format_nml_body cfg align)
               (if in_block st1
                then (if keep_whitelines cfg
                      then append_line st1 [] else st1)
                else st1) post.
Proof.
  intros H.
  assert (Hbody : forall st', format_nml_body cfg align st' line
    = Ok (if in_block st'
          then (if keep_whitelines cfg then append_line st' [] else st')
          else st')).
  { intros [b ml]. rewrite format_nml_body_step. unfold step.
    rewrite (classify_blank _ H), (clean_blank _ H).
    cbn [in_block bind]. unfold extend, append_line. cbn [fst snd in_block mod_lines].
    destruct b, (keep_whitelines cfg); cbn; rewrite ?app_nil_r; reflexivity. }
  split; [apply Hbody|].
  intros st0 pre post. rewrite for_each_app.
  destruct (for_each (format_nml_body cfg align) st0 pre) as [st1|e];
    [|reflexivity].
  cbn [bind for_each]. now rewrite Hbody.
Qed.

Lemma blank_line_policy_witness :
  forallb isspace (lit "   ") = true /\
  format_nml_body default_config 6 {| in_block := true; mod_lines := [lit "&a"] |}
                  (lit "   ")
  = Ok {| in_block := true; mod_lines := [lit "&a"; []] |}.
Proof.
  split; [reflexivity|].
  exact (proj1 (blank_line_policy default_config 6
                  {| in_block := true; mod_lines := [lit "&a"] |}
                  (lit "   ") eq_refl)).
Defined.

(** The shape of a formatted assignment line. *)
Lemma format_line_shape (line : str) (align bi : Z) (tc kc : bool) (fl : str) :
  format_line line align bi tc kc = Ok fl ->
  exists key value comment,
    parse_key_val_pair line = Ok (key, value, comment) /\
    fl = spaces bi ++ key ++ spaces (Z.max (align - len key - 1) 1)
         ++ lit " = " ++ normalize_value value
         ++ (if tc then lit "," else [])
         ++ (if kc then comment else []).
Proof.
  unfold format_line.
  destruct (parse_key_val_pair line) as [[[key value] comment]|e];
    cbn [bind]; [|discriminate].
  intros H. injection H as <-. now exists key, value, comment.
Qed.

(** C9. An assignment line is formatted by [format_line] on the cleaned
    line whatever the block flag is: the body appends a line that
    starts with [block_indent] spaces followed at once by the key (which
    starts with a character that is not whitespace), inside a block and
    outside alike.  Only a full-line comment is indented according to
    the flag. *)
Theorem assignment_indent_ignores_block (cfg : config) (align : Z)
        (st : loop_state) (line : str) :
  classify line = Assignment ->
  format_nml_body cfg align st line
  = (fl <- format_line (clean line) align (block_indent cfg)
                       (trailing_comma cfg) (keep_comments cfg) ;;
     Ok (append_line st fl))
  /\
  (forall fl,
     format_line (clean line) align (block_indent cfg)
                 (trailing_comma cfg) (keep_comments cfg) = Ok fl ->
     exists key rest,
       fl = spaces (block_indent cfg) ++ key ++ rest /\
       key <> [] /\ forallb cls_key key = true)
  /\
  (forall cline,
     classify cline = Comment -> keep_comments cfg = true ->
     format_nml_body cfg align st cline
     = Ok (append_line st
             ((if in_block st then spaces (block_indent cfg) else [])
              ++ lit "! " ++ strip (skipn 1 (strip cline))))).
Proof.
  intros H. split; [|split].
  - rewrite format_nml_body_step. unfold step. rewrite H.
    destruct (format_line (clean line) align (block_indent cfg)
                          (trailing_comma cfg) (keep_comments cfg));
      reflexivity.
  - intros fl Hfl.
    apply format_line_shape in Hfl as (key & value & comment & Hp & ->).
    destruct (parse_ok_fields _ _ _ _ Hp) as [Hne [Hk _]].
    eexists key, _. split; [reflexivity|]. now split.
  - intros cline Hc Hkc. rewrite format_nml_body_step. unfold step.
    rewrite Hc, Hkc, strip_clean. cbn [bind]. unfold extend, append_line.
    cbn [fst snd]. now destruct (in_block st).
Qed.

Lemma assignment_indent_ignores_block_witness :
  classify (lit "a = 1") = Assignment /\
  format_nml_body default_config 6 {| in_block := false; mod_lines := [] |}
                  (lit "a = 1")
  = Ok {| in_block := false; mod_lines := [lit "  a     = 1,"] |}.
Proof.
  split; [reflexivity|].
  exact (proj1 (assignment_indent_ignores_block default_config 6
                  {| in_block := false; mod_lines := [] |}
                  (lit "a = 1") eq_refl)).
Defined.

(** C3. The key is emitted as it was written: the parser returns the
    matched text and [format_line] prints it unchanged, so an upper-case
    key stays upper-case (only block headers are lowered). *)
Theorem key_case_is_kept :
  parse_key_val_pair (lit "KEY = 1") = Ok (lit "KEY", lit "1", []) /\
  format_nml default_config (lit "KEY = 1") = Ok (lit "  KEY     = 1,").
Proof. split; reflexivity. Qed.

(** * The rewriting of the value *)

Lemma startswith_iff (old s : str) :
  startswith old s = true <-> exists b, s = old ++ b.
Proof.
  revert s. induction old as [|o old IH]; intros s.
  - simpl. split; [intros _; now exists s | reflexivity].
  - destruct s as [|c s]; simpl.
    + split; [discriminate | intros [b H]; discriminate].
    + rewrite andb_true_iff, Ascii.eqb_eq, IH. split.
      * intros [-> [b ->]]. now exists b.
      * intros [b H]. injection H as -> ->. split; [reflexivity | now exists b].
Qed.

Lemma replace_from_skip (old new : str) (k : nat) (s : str) :
  replace_from old new k s = replace old new (skipn k s).
Proof.
  revert k. induction s as [|c t IH]; intros k.
  - now destruct k.
  - destruct k as [|k]; [reflexivity|]. cbn [replace_from skipn]. apply IH.
Qed.

Lemma replace_nil (old new : str) : replace old new [] = [].
Proof. reflexivity. Qed.

Lemma replace_miss (old new : str) (c : ascii) (t : str) :
  startswith old (c :: t) = false ->
  replace old new (c :: t) = c :: replace old new t.
Proof. intros H. unfold replace. cbn [replace_from]. now rewrite H. Qed.

Lemma replace_hit (old new b : str) :
  old <> [] -> replace old new (old ++ b) = new ++ replace old new b.
Proof.
  intros Hne. destruct old as [|o os]; [congruence|].
  unfold replace at 1. cbn [app replace_from].
  replace (startswith (o :: os) (o :: os ++ b)) with true.
  - rewrite replace_from_skip.
    replace (List.length (o :: os) - 1)%nat with (List.length os)
      by (simpl; lia).
    rewrite skipn_app, skipn_all, Nat.sub_diag. reflexivity.
  - symmetry. apply startswith_iff. now exists b.
Qed.

Lemma occurs_length (old s : str) :
  occurs old s -> (List.length old <= List.length s)%nat.
Proof. intros [a [b ->]]. rewrite !length_app. lia. Qed.

Lemma removelast_length (old : str) :
  old <> [] -> (List.length (removelast old) < List.length old)%nat.
Proof.
  intros H. rewrite (app_removelast_last " " H) at 2.
  rewrite length_app. simpl. lia.
Qed.

Lemma occurs_cons (old : str) (c : ascii) (t : str) :
  occurs old (c :: t) -> startswith old (c :: t) = true \/ occurs old t.
Proof.
  intros [a [b H]]. destruct a as [|x a].
  - left. apply startswith_iff. now exists b.
  - right. injection H as _ ->. now exists a, b.
Qed.

Lemma replaced_all_cons (old new : str) (c : ascii) (t r : str) :
  old <> [] ->
  startswith old (c :: t) = false ->
  replaced_all old new t r -> replaced_all old new (c :: t) (c :: r).
Proof.
  intros Hne Hs H. destruct H as [s Hno|a b r Hno Hb].
  - apply replaced_none. intros Ho. apply occurs_cons in Ho as [Ho|Ho];
      [congruence | contradiction].
  - change (c :: a ++ old ++ b) with ((c :: a) ++ old ++ b).
    change (c :: a ++ new ++ r) with ((c :: a) ++ new ++ r).
    apply replaced_hit; [|exact Hb].
    cbn [app]. intros Ho. apply occurs_cons in Ho as [Ho|Ho]; [|contradiction].
    apply startswith_iff in Ho as [y Hy].
    assert (Hs' : startswith old (c :: a ++ old ++ b) = true).
    { apply startswith_iff. exists (y ++ [last old " "] ++ b).
      rewrite (app_removelast_last " " Hne) at 1.
      rewrite <- app_assoc, (app_assoc a), app_comm_cons.
      change (c :: a ++ removelast old) with (c :: (a ++ removelast old)).
      rewrite Hy. now rewrite <- !app_assoc. }
    congruence.
Qed.

(** The scan of [replace] replaces every occurrence in the sense of
    [replaced_all]. *)
Lemma replace_replaced_all (old new s : str) :
  old <> [] -> replaced_all old new s (replace old new s).
Proof.
  intros Hne.
  remember (List.length s) as n eqn:En. revert s En.
  induction n as [n IH] using lt_wf_ind. intros s En.
  destruct s as [|c t].
  - rewrite replace_nil. apply replaced_none. intros Ho.
    apply occurs_length in Ho. destruct old; [congruence|]. simpl in Ho. lia.
  - destruct (startswith old (c :: t)) eqn:Es.
    + apply startswith_iff in Es as [b Eb]. rewrite Eb.
      rewrite replace_hit by assumption.
      apply (replaced_hit old new [] b).
      * cbn [app]. intros Ho. apply occurs_length in Ho.
        pose proof (removelast_length _ Hne). lia.
      * apply (IH (List.length b)); [|reflexivity].
        subst n. rewrite Eb, length_app.
        destruct old; [congruence|]. simpl. lia.
    + rewrite replace_miss by assumption.
      apply replaced_all_cons; try assumption.
      apply (IH (List.length t)); [|reflexivity]. subst n. simpl. lia.
Qed.

Lemma replace_quote (s : str) : replace ["034"] ["'"] s = map requote s.
Proof.
  induction s as [|c t IH]; [reflexivity|].
  cbn [map]. rewrite <- IH. unfold requote.
  destruct (Ascii.eqb_spec c "034") as [->|Hne].
  - change ("034" :: t) with (["034"] ++ t).
    now rewrite replace_hit by discriminate.
  - apply replace_miss.
    cbn [startswith]. destruct (Ascii.eqb_spec "034" c); [congruence|].
    reflexivity.
Qed.

(** C6. The value is rewritten by substring replacement: after the
    spacing of commas, every occurrence of [.t.], then of [.TRUE.], is
    replaced by [.true.], every occurrence of [.f.], then of [.FALSE.],
    by [.false.] (occurrences as a scan from the left meets them,
    anywhere in the text and not only as whole tokens), and every
    double quote becomes a single quote; [format_line] prints the
    value so rewritten. *)
Theorem value_normalization (value : str) :
  (exists v1 v2 v3 v4,
     replaced_all (lit ".t.") (lit ".true.") (comma_spacing value) v1 /\
     replaced_all (lit ".TRUE.") (lit ".true.") v1 v2 /\
     replaced_all (lit ".f.") (lit ".false.") v2 v3 /\
     replaced_all (lit ".FALSE.") (lit ".false.") v3 v4 /\
     normalize_value value = map requote v4) /\
  (forall line align bi tc kc key comment,
     parse_key_val_pair line = Ok (key, value, comment) ->
     format_line line align bi tc kc
     = Ok (spaces bi ++ key ++ spaces (Z.max (align - len key - 1) 1)
           ++ lit " = " ++ normalize_value value
           ++ (if tc then lit "," else [])
           ++ (if kc then comment else []))).
Proof.
  split.
  - unfold normalize_value. fold (comma_spacing value).
    cbn [fold_left TRUE_REPR FALSE_REPR].
    eexists _, _, _, _.
    repeat (split; [apply replace_replaced_all; discriminate|]).
    apply replace_quote.
  - intros line align bi tc kc key comment Hp.
    unfold format_line. rewrite Hp. reflexivity.
Qed.

(** The first occurrence is where it is: two ways of cutting a text at
    an occurrence of [old] that has no occurrence before it agree. *)
Lemma first_occurrence_unique (old a b a' b' : str) :
  old <> [] ->
  a ++ old ++ b = a' ++ old ++ b' ->
  ~ occurs old (a ++ removelast old) ->
  ~ occurs old (a' ++ removelast old) ->
  a = a' /\ b = b'.
Proof.
  intros Hne E Ha Ha'.
  assert (Hold : old = removelast old ++ [last old " "])
    by now apply app_removelast_last.
  assert (Hcut : forall x y x' y' : str,
             x ++ old ++ y = x' ++ old ++ y' ->
             ~ occurs old (x' ++ removelast old) ->
             (List.length x' <= List.length x)%nat).
  { intros x y x' y' Exy Hno.
    destruct (Nat.le_gt_cases (List.length x') (List.length x)) as [|Hlt];
      [assumption|]. exfalso. apply Hno.
    assert (Exy' : (x ++ old) ++ y
                   = (x' ++ removelast old) ++ [last old " "] ++ y').
    { rewrite <- !app_assoc, Exy. f_equal. rewrite Hold at 1.
      now rewrite <- app_assoc. }
    apply app_eq_app in Exy' as [l [[E1 E2]|[E1 E2]]].
    - assert (El : l = []).
      { apply (f_equal (@List.length ascii)) in E1.
        rewrite !length_app in E1.
        assert (Hrl : List.length old = S (List.length (removelast old))).
        { rewrite Hold at 1. rewrite length_app. simpl. lia. }
        destruct l; [reflexivity | simpl in E1; lia]. }
      subst l. rewrite app_nil_r in E1. exists x, []. now rewrite <- E1, app_nil_r.
    - exists x, l. now rewrite E1, <- app_assoc. }
  assert (Hlen : List.length a = List.length a').
  { apply Nat.le_antisymm.
    - now apply (Hcut a' b' a b).
    - now apply (Hcut a b a' b'). }
  apply app_eq_app in E as [l [[E1 E2]|[E1 E2]]];
    apply (f_equal (@List.length ascii)) in E1 as El;
    rewrite length_app in El;
    (assert (l = []) by (destruct l; [reflexivity | simpl in El; lia])); subst l;
    rewrite app_nil_r in E1; cbn [app] in E2; subst;
    apply app_inv_head in E2; auto.
Qed.

(** [replaced_all] determines its result: with [replace_replaced_all]
    it says exactly what [replace] computes. *)
Lemma replaced_all_unique (old new s r1 r2 : str) :
  old <> [] ->
  replaced_all old new s r1 -> replaced_all old new s r2 -> r1 = r2.
Proof.
  intros Hne H1. revert r2.
  induction H1 as [s Hno | a b r Hno Hb IH]; intros r2 H2.
  - inversion H2 as [s' Hno' | a' b' r' Hno' Hb' Es]; subst; [reflexivity|].
    exfalso. apply Hno. now exists a', b'.
  - inversion H2 as [s' Hno' | a' b' r' Hno' Hb' Es]; subst.
    + exfalso. apply Hno'. now exists a, b.
    + destruct (first_occurrence_unique old a' b' a b Hne Es Hno' Hno)
        as [-> ->].
      f_equal. f_equal. now apply IH.
Qed.

(** * Alignment of the [=] signs *)

Section RstripInside.
Variables p k : ascii -> bool.
Hypothesis k_not_p : forall c, k c = true -> p c = false.

Lemma rstrip_by_cons (c : ascii) (r : str) :
  rstrip_by p (c :: r)
  = match rstrip_by p r with
    | [] => if p c then [] else [c]
    | _ :: _ => c :: rstrip_by p r
    end.
Proof.
  destruct (rstrip_by p r) as [|x u] eqn:E.
  - destruct (rstrip_by_split p r) as [w [Ew Hw]]. rewrite E in Ew.
    simpl in Ew. subst w. destruct (p c) eqn:Ec.
    + apply rstrip_by_all. simpl. now rewrite Ec.
    + change (c :: r) with ([c] ++ r). rewrite rstrip_by_app_all by assumption.
      now apply (rstrip_by_stop p []).
  - change (c :: r) with ([c] ++ r). rewrite rstrip_by_app_keep.
    + now rewrite E.
    + now rewrite E.
Qed.

Lemma rstrip_by_cons_shape (c : ascii) (r : str) :
  rstrip_by p (c :: r) = [] \/ exists u, rstrip_by p (c :: r) = c :: u.
Proof.
  rewrite rstrip_by_cons. destruct (rstrip_by p r).
  - destruct (p c); [now left | right; now exists []].
  - right. eauto.
Qed.

Lemma takewhile_rstrip_by (u : str) :
  takewhile k (rstrip_by p u) = takewhile k u.
Proof.
  induction u as [|c r IH]; [reflexivity|].
  cbn [takewhile]. destruct (k c) eqn:Ek.
  - rewrite (rstrip_by_cons_keep p _ _ (k_not_p _ Ek)).
    cbn [takewhile]. now rewrite Ek, IH.
  - destruct (rstrip_by_cons_shape c r) as [->|[u ->]]; [reflexivity|].
    cbn [takewhile]. now rewrite Ek.
Qed.

Lemma lstrip_by_rstrip_by_inside (u : str) :
  lstrip_by k (rstrip_by p u) = rstrip_by p (lstrip_by k u).
Proof.
  induction u as [|c r IH]; [reflexivity|].
  cbn [lstrip_by]. destruct (k c) eqn:Ek.
  - rewrite (rstrip_by_cons_keep p _ _ (k_not_p _ Ek)).
    cbn [lstrip_by]. now rewrite Ek, IH.
  - destruct (rstrip_by_cons_shape c r) as [E|[u E]]; rewrite E;
      [reflexivity|]. cbn [lstrip_by]. now rewrite Ek.
Qed.

End RstripInside.

(** Stripping the end of a text does not change the key found in it. *)
Lemma match_key_rstrip (u : str) :
  key_of (match_key (rstrip u)) = key_of (match_key u).
Proof.
  unfold match_key, rstrip.
  rewrite (takewhile_rstrip_by isspace cls_key cls_key_not_space).
  rewrite (lstrip_by_rstrip_by_inside isspace cls_key cls_key_not_space).
  rewrite lstrip_by_rstrip_by_comm.
  destruct (takewhile cls_key u) as [|k0 ks]; [reflexivity|].
  pose proof (lstrip_by_head isspace (lstrip_by cls_key u)) as Hh.
  destruct (lstrip_by isspace (lstrip_by cls_key u)) as [|c e]; [reflexivity|].
  rewrite (rstrip_by_cons_keep isspace _ _ Hh).
  destruct (cls_eq c); reflexivity.
Qed.

Lemma match_kv_rstrip (s : str) :
  key_of (match_kv (rstrip s)) = key_of (match_kv s).
Proof.
  unfold match_kv, rstrip. rewrite lstrip_by_rstrip_by_comm.
  pose proof (lstrip_by_head isspace s) as Hh.
  destruct (lstrip_by isspace s) as [|c t]; [reflexivity|].
  rewrite (rstrip_by_cons_keep isspace _ _ Hh).
  assert (Hfull : key_of (match_key (c :: rstrip_by isspace t))
                  = key_of (match_key (c :: t))).
  { rewrite <- (rstrip_by_cons_keep isspace _ _ Hh). apply match_key_rstrip. }
  destruct (cls_comma c); [|exact Hfull].
  pose proof (match_key_rstrip (lstrip_by isspace t)) as Hin.
  unfold rstrip in Hin. rewrite <- lstrip_by_rstrip_by_comm in Hin.
  destruct (match_key (lstrip_by isspace (rstrip_by isspace t))) as [r1|],
           (match_key (lstrip_by isspace t)) as [r2|];
    cbn [key_of option_map] in *; try discriminate; try exact Hin.
  exact Hfull.
Qed.

Lemma match_kv_lstrip (q : ascii -> bool) (s : str) :
  (forall c, q c = true -> isspace c = true) ->
  match_kv (lstrip_by q s) = match_kv s.
Proof.
  intros Hq. unfold match_kv. now rewrite (lstrip_by_nested isspace q Hq).
Qed.

Lemma is_nl_not_bang (c : ascii) : is_nl c = true -> Ascii.eqb "!" c = false.
Proof.
  unfold is_nl, contains. simpl. rewrite orb_false_r.
  intros H. apply Ascii.eqb_eq in H. now subst c.
Qed.

Lemma lstrip_by_app_stop (p : ascii -> bool) (a : str) (c : ascii) (b : str) :
  p c = false -> lstrip_by p (a ++ c :: b) = lstrip_by p a ++ c :: b.
Proof.
  intros Hc. induction a as [|x a IH]; simpl; [now rewrite Hc|].
  destruct (p x); [exact IH | reflexivity].
Qed.

(** The cleaned line, for a line with a comment. *)
Lemma clean_at_bang (pre post : str) :
  clean (pre ++ "!" :: post) = lstrip_by is_nl pre ++ "!" :: rstrip post.
Proof.
  rewrite clean_eq, (lstrip_by_app_stop is_nl pre "!" post eq_refl).
  unfold rstrip.
  rewrite rstrip_by_app_keep.
  - now rewrite (rstrip_by_cons_keep isspace "!" post eq_refl).
  - now rewrite (rstrip_by_cons_keep isspace "!" post eq_refl).
Qed.

Lemma contains_lstrip_by (c : ascii) (p : ascii -> bool) (s : str) :
  contains c s = false -> contains c (lstrip_by p s) = false.
Proof.
  rewrite !contains_false_forallb. apply forallb_lstrip_by.
Qed.

Lemma contains_rstrip_by (c : ascii) (p : ascii -> bool) (s : str) :
  contains c s = false -> contains c (rstrip_by p s) = false.
Proof.
  rewrite !contains_false_forallb. apply forallb_rstrip_by.
Qed.

(** Cleaning a line changes neither whether the parser accepts it nor
    the key it finds. *)
Lemma key_of_clean (line : str) :
  key_of (match_kv (value_part (clean line)))
  = key_of (match_kv (value_part line)).
Proof.
  destruct (contains "!" line) eqn:E.
  - destruct (contains_split _ _ E) as [pre [post [-> Hp]]].
    rewrite clean_at_bang.
    rewrite (value_part_at _ _ (contains_lstrip_by _ is_nl _ Hp)).
    rewrite (value_part_at _ _ Hp).
    now rewrite (match_kv_lstrip is_nl pre is_nl_space).
  - rewrite (value_part_no_bang _ E), clean_eq.
    rewrite value_part_no_bang.
    + unfold rstrip. fold (rstrip (lstrip_by is_nl line)).
      rewrite match_kv_rstrip.
      now rewrite (match_kv_lstrip is_nl line is_nl_space).
    + unfold rstrip. now apply contains_rstrip_by, contains_lstrip_by.
Qed.

Lemma key_length_key_of (line : str) :
  key_length line = option_map len (key_of (match_kv (value_part line))).
Proof.
  unfold key_length. rewrite parse_unfold.
  destruct (match_kv (value_part line)); reflexivity.
Qed.

Lemma key_length_clean (line : str) : key_length (clean line) = key_length line.
Proof. rewrite !key_length_key_of. now rewrite key_of_clean. Qed.

Lemma length_spaces (n : Z) : List.length (spaces n) = Z.to_nat n.
Proof. unfold spaces. apply repeat_length. Qed.

Lemma index_of_first (c : ascii) (a b : str) :
  forallb (fun x => negb (Ascii.eqb x c)) a = true ->
  index_of c (a ++ c :: b) = Some (List.length a).
Proof.
  induction a as [|x a IH]; simpl.
  - now rewrite Ascii.eqb_refl.
  - intros H. apply andb_prop in H as [Hx Ha].
    apply negb_true_iff in Hx. now rewrite Hx, (IH Ha).
Qed.

Lemma forallb_spaces (q : ascii -> bool) (n : Z) :
  q " " = true -> forallb q (spaces n) = true.
Proof.
  intros H. unfold spaces. induction (Z.to_nat n) as [|m IH]; simpl;
    [reflexivity | now rewrite H, IH].
Qed.

Lemma forallb_impl (q1 q2 : ascii -> bool) (s : str) :
  (forall c, q1 c = true -> q2 c = true) ->
  forallb q1 s = true -> forallb q2 s = true.
Proof. intros H. now apply forallb_sub. Qed.

(** The first [=] of a formatted assignment line is the one the
    formatter wrote after the padding. *)
Lemma eq_column_formatted (bi pad : Z) (key rest : str) :
  forallb cls_key key = true -> (0 <= pad)%Z ->
  eq_column (spaces bi ++ key ++ spaces pad ++ lit " = " ++ rest)
  = Some (Z.max bi 0 + len key + pad + 1)%Z.
Proof.
  intros Hk Hpad. unfold eq_column.
  change (lit " = " ++ rest) with (" " :: "=" :: " " :: rest).
  replace (spaces bi ++ key ++ spaces pad ++ " " :: "=" :: " " :: rest)
    with ((spaces bi ++ key ++ spaces pad ++ [" "]) ++ "=" :: " " :: rest)
    by now rewrite <- !app_assoc.
  rewrite index_of_first.
  - cbn [option_map]. f_equal.
    rewrite !length_app, !length_spaces. unfold len. simpl List.length. lia.
  - rewrite !forallb_app.
    rewrite (forallb_spaces _ bi eq_refl), (forallb_spaces _ pad eq_refl).
    rewrite (forallb_impl cls_key _ key); [reflexivity| |exact Hk].
    intros c Hc. apply cls_key_not_eq in Hc. unfold cls_eq in Hc.
    now rewrite Hc.
Qed.

(** [format_nml] in terms of [run]. *)
Lemma format_nml_run (cfg : config) (content : str) :
  format_nml cfg content
  = (longest_key <- find_longest_key content ;;
     r <- run cfg (longest_key + eq_offset cfg) false (splitlines content) ;;
     Ok (join ["010"] (snd r))).
Proof.
  unfold format_nml. destruct (find_longest_key content) as [n|e]; [|reflexivity].
  cbn [bind]. rewrite for_each_run. cbn [in_block].
  destruct (run cfg (n + eq_offset cfg) false (splitlines content)) as [[b o]|e];
    reflexivity.
Qed.

Lemma step_assignment (cfg : config) (align : Z) (b : bool) (line : str) :
  classify line = Assignment ->
  step cfg align b line
  = (fl <- format_line (clean line) align (block_indent cfg)
                       (trailing_comma cfg) (keep_comments cfg) ;;
     Ok (b, [fl])).
Proof. intros H. unfold step. now rewrite H. Qed.

(** Every assignment line of the input has its formatted line in the
    output of a run that does not raise. *)
Lemma run_emits_assignment (cfg : config) (align : Z) (lines : list str)
      (b b' : bool) (outs : list str) (line : str) :
  run cfg align b lines = Ok (b', outs) ->
  In line lines -> classify line = Assignment ->
  exists fl,
    format_line (clean line) align (block_indent cfg)
                (trailing_comma cfg) (keep_comments cfg) = Ok fl /\
    In fl outs.
Proof.
  revert b outs. induction lines as [|l rest IH]; intros b outs Hrun Hin Hc;
    [contradiction|].
  cbn [run] in Hrun.
  destruct (step cfg align b l) as [[b1 o1]|e] eqn:Es; [|discriminate].
  cbn [bind] in Hrun.
  destruct (run cfg align b1 rest) as [[b2 o2]|e] eqn:Er; [|discriminate].
  cbn [bind] in Hrun. injection Hrun as <- <-.
  destruct Hin as [->|Hin].
  - rewrite (step_assignment _ _ _ _ Hc) in Es.
    destruct (format_line (clean line) align (block_indent cfg)
                          (trailing_comma cfg) (keep_comments cfg)) as [fl|e];
      [|discriminate].
    cbn [bind] in Es. injection Es as <- <-.
    exists fl. split; [reflexivity|]. apply in_or_app. left. now left.
  - destruct (IH _ _ Er Hin Hc) as [fl [Hfl Hin']].
    exists fl. split; [exact Hfl|]. apply in_or_app. now right.
Qed.

(** C2, as the code has it.  For an assignment line of the document
    whose cleaned text parses with key [key], the formatted line is
    [block_indent] spaces, the key, [max (longest + eq_offset - len key
    - 1) 1] spaces and " = "; the key is at most [longest] long;
    counted from 0, the [=] stands at [max block_indent 0 + len key +
    padding + 1], which is [max block_indent 0 + longest + eq_offset]
    whenever the formula gives at least one space (always so when
    [eq_offset >= 2]); when the formula gives less the padding is
    exactly one space.  The line is one of the lines of the output. *)
Theorem eq_sign_column (cfg : config) (content : str) (longest : Z)
        (line key value comment : str) :
  find_longest_key content = Ok longest ->
  In line (splitlines content) ->
  classify line = Assignment ->
  parse_key_val_pair (clean line) = Ok (key, value, comment) ->
  let pad := Z.max (longest + eq_offset cfg - len key - 1) 1 in
  exists fl rest,
    format_line (clean line) (longest + eq_offset cfg) (block_indent cfg)
                (trailing_comma cfg) (keep_comments cfg) = Ok fl /\
    fl = spaces (block_indent cfg) ++ key ++ spaces pad ++ lit " = " ++ rest /\
    (len key <= longest)%Z /\
    eq_column fl = Some (Z.max (block_indent cfg) 0 + len key + pad + 1)%Z /\
    ((1 <= longest + eq_offset cfg - len key - 1)%Z ->
     eq_column fl
     = Some (Z.max (block_indent cfg) 0 + longest + eq_offset cfg)%Z) /\
    ((2 <= eq_offset cfg)%Z ->
     (1 <= longest + eq_offset cfg - len key - 1)%Z) /\
    ((longest + eq_offset cfg - len key - 1 < 1)%Z -> pad = 1%Z) /\
    (forall out, format_nml cfg content = Ok out ->
                 exists ml, out = join ["010"] ml /\ In fl ml).
Proof.
  intros Hl Hin Hc Hp pad.
  destruct (parse_ok_fields _ _ _ _ Hp) as [Hne [Hk _]].
  assert (Hle : (len key <= longest)%Z).
  { rewrite find_longest_key_eq in Hl. injection Hl as <-.
    apply (proj2 (max_from_ge _ _)). apply in_key_lengths.
    exists line. split; [exact Hin|]. rewrite <- key_length_clean.
    unfold key_length. now rewrite Hp. }
  set (rest := normalize_value value
                 ++ (if trailing_comma cfg then lit "," else [])
                 ++ (if keep_comments cfg then comment else [])).
  exists (spaces (block_indent cfg) ++ key ++ spaces pad ++ lit " = " ++ rest),
    rest.
  split; [|split; [reflexivity|]].
  { unfold format_line. rewrite Hp. cbn [bind]. reflexivity. }
  split; [exact Hle|].
  assert (Hcol := eq_column_formatted (block_indent cfg) pad key rest Hk).
  split; [apply Hcol; unfold pad; lia|].
  split; [intros H; rewrite Hcol by (unfold pad; lia); f_equal; unfold pad; lia|].
  split; [lia|]. split; [unfold pad; lia|].
  intros out Hout. rewrite format_nml_run, Hl in Hout. cbn [bind] in Hout.
  destruct (run cfg (longest + eq_offset cfg) false (splitlines content))
    as [[b' outs]|e] eqn:Er; [|discriminate].
  cbn [bind snd] in Hout. injection Hout as <-.
  exists outs. split; [reflexivity|].
  destruct (run_emits_assignment _ _ _ _ _ _ _ Er Hin Hc) as [fl [Hfl Hin']].
  unfold format_line in Hfl. rewrite Hp in Hfl. cbn [bind] in Hfl.
  injection Hfl as <-. exact Hin'.
Qed.

Lemma eq_sign_column_witness :
  find_longest_key (lit "a = 1") = Ok 1%Z /\
  In (lit "a = 1") (splitlines (lit "a = 1")) /\
  classify (lit "a = 1") = Assignment /\
  parse_key_val_pair (clean (lit "a = 1")) = Ok (lit "a", lit "1", []) /\
  exists fl rest,
    format_line (clean (lit "a = 1")) (1 + 5) 2 true true = Ok fl /\
    fl = spaces 2 ++ lit "a" ++ spaces 4 ++ lit " = " ++ rest /\
    eq_column fl = Some 8%Z.
Proof.
  split; [reflexivity|]. split; [now left|]. split; [reflexivity|].
  split; [reflexivity|].
  destruct (eq_sign_column default_config (lit "a = 1") 1
              (lit "a = 1") (lit "a") (lit "1") []
              eq_refl (or_introl eq_refl) eq_refl eq_refl)
    as (fl & rest & H1 & H2 & _ & H3 & _).
  exists fl, rest. split; [exact H1|]. split; [exact H2|exact H3].
Defined.

(** C2. With the default options the only assignment line of "a = 1"
    has its [=] at position 8 counted from 0 (the ninth character),
    though the longest key has length 1 and the offset is 5: the
    indentation of the line comes on top.  With no indentation and no
    offset, the lines of the second document have their [=] at
    positions 3 and 5: the one-space minimum moves the [=] of the
    longest key to the right of the others. *)
Lemma eq_column_counterexample :
  (find_longest_key (lit "a = 1") = Ok 1%Z /\
   format_nml default_config (lit "a = 1") = Ok (lit "  a     = 1,") /\
   eq_column (lit "  a     = 1,") = Some 8%Z /\
   8%Z <> (1 + eq_offset default_config)%Z /\
   (8 + 1)%Z <> (1 + eq_offset default_config)%Z)
  /\
  (let cfg := {| eq_offset := 0; block_indent := 0; trailing_comma := true;
                 keep_comments := true; keep_whitelines := true |} in
   let doc := lit "a = 1" ++ ["010"] ++ lit "abc = 2" in
   find_longest_key doc = Ok 3%Z /\
   format_nml cfg doc = Ok (lit "a  = 1," ++ ["010"] ++ lit "abc  = 2,") /\
   eq_column (lit "a  = 1,") = Some 3%Z /\
   eq_column (lit "abc  = 2,") = Some 5%Z).
Proof.
  split.
  - repeat split; try reflexivity; discriminate.
  - repeat split; reflexivity.
Qed.

(** * Lines and texts *)


Lemma splitlines_one_line (s : str) :
  forall l, In l (splitlines s) -> one_line l = true.
Proof.
  remember (List.length s) as n eqn:En. revert s En.
  induction n as [n IH] using lt_wf_ind. intros s En l.
  destruct s as [|c t]; [contradiction|].
  cbn [splitlines]. destruct (is_linebreak c) eqn:Ec.
  - assert (Ht : In l ([] :: splitlines t) -> one_line l = true).
    { intros [<-|H]; [reflexivity|].
      apply (IH (List.length t)) with (s := t); [subst n; simpl; lia|reflexivity|exact H]. }
    destruct t as [|c' t']; [exact Ht|].
    destruct (Ascii.eqb c "013" && Ascii.eqb c' "010"); [|exact Ht].
    intros [<-|H]; [reflexivity|].
    apply (IH (List.length t')) with (s := t'); [subst n; simpl; lia|reflexivity|exact H].
  - assert (Ht : forall l', In l' (splitlines t) -> one_line l' = true).
    { intros l' H.
      apply (IH (List.length t)) with (s := t); [subst n; simpl; lia|reflexivity|exact H]. }
    destruct (splitlines t) as [|l0 ls].
    + intros [<-|[]]. unfold one_line, no_break. simpl. now rewrite Ec.
    + intros [<-|H].
      * unfold one_line. simpl. unfold no_break at 1. rewrite Ec. simpl.
        apply (Ht l0). now left.
      * apply Ht. now right.
Qed.

(** A line followed by a newline is the first line of the text. *)
Lemma splitlines_cons_line (x r : str) :
  one_line x = true ->
  splitlines (x ++ "010" :: r) = x :: splitlines r.
Proof.
  induction x as [|c x IH]; intros Hx.
  - cbn [app splitlines]. replace (is_linebreak "010") with true by reflexivity.
    replace (Ascii.eqb "010" "013") with false by reflexivity.
    cbn [andb]. now destruct r.
  - unfold one_line in Hx. simpl in Hx. apply andb_prop in Hx as [Hc Hx].
    unfold no_break in Hc. apply negb_true_iff in Hc.
    cbn [app splitlines]. rewrite Hc, (IH Hx). reflexivity.
Qed.

Lemma splitlines_last_line (x : str) :
  one_line x = true -> x <> [] -> splitlines x = [x].
Proof.
  induction x as [|c x IH]; intros Hx Hne; [congruence|].
  unfold one_line in Hx. simpl in Hx. apply andb_prop in Hx as [Hc Hx].
  unfold no_break in Hc. apply negb_true_iff in Hc.
  cbn [splitlines]. rewrite Hc. destruct x as [|c' x']; [reflexivity|].
  rewrite (IH Hx); [reflexivity | discriminate].
Qed.

(** Joining lines with newlines and splitting again gives the lines
    back, a last empty line apart. *)
Lemma splitlines_join (ml : list str) :
  (forall l, In l ml -> one_line l = true) ->
  splitlines (join ["010"] ml) = drop_final_empty ml.
Proof.
  induction ml as [|x rest IH]; intros H; [reflexivity|].
  assert (Hx : one_line x = true) by (apply H; now left).
  destruct rest as [|y rest'].
  - cbn [join drop_final_empty]. destruct x as [|c x']; [reflexivity|].
    apply splitlines_last_line; [exact Hx | discriminate].
  - change (join ["010"] (x :: y :: rest'))
      with (x ++ "010" :: join ["010"] (y :: rest')).
    rewrite (splitlines_cons_line _ _ Hx), IH; [reflexivity|].
    intros l Hl. apply H. now right.
Qed.



(** * More on stripping and lowering *)

Lemma strip_unfold (s : str) : strip s = rstrip (lstrip_by isspace s).
Proof. reflexivity. Qed.

Lemma strip_alt (s : str) : strip s = lstrip_by isspace (rstrip s).
Proof. unfold strip, strip_by, rstrip. symmetry. apply lstrip_by_rstrip_by_comm. Qed.

Lemma strip_idem (s : str) : strip (strip s) = strip s.
Proof.
  unfold strip, strip_by.
  rewrite lstrip_by_rstrip_by_comm, rstrip_by_idem, lstrip_by_idem.
  reflexivity.
Qed.


Lemma strip_pad (a s b : str) :
  forallb isspace a = true -> forallb isspace b = true ->
  strip (a ++ s ++ b) = strip s.
Proof.
  intros Ha Hb. rewrite strip_alt, app_assoc. unfold rstrip.
  rewrite rstrip_by_app_all by assumption.
  rewrite lstrip_by_rstrip_by_comm, lstrip_by_app_all by assumption.
  reflexivity.
Qed.

Lemma strip_lpad (a s : str) :
  forallb isspace a = true -> strip (a ++ s) = strip s.
Proof.
  intros Ha. rewrite <- (app_nil_r s) at 1. now apply strip_pad.
Qed.

Lemma strip_nil_iff (s : str) : strip s = [] <-> forallb isspace s = true.
Proof.
  split; [|apply strip_blank].
  intros H. rewrite strip_unfold in H.
  destruct (rstrip_by_split isspace (lstrip_by isspace s)) as [w [E Hw]].
  unfold rstrip in H. rewrite H in E. simpl in E.
  rewrite <- (takewhile_lstrip isspace s), forallb_app, takewhile_forallb, E.
  exact Hw.
Qed.

(** A stripped text starts and ends with a character that is not
    whitespace. *)
Lemma strip_ends (s : str) :
  lstrip_by isspace (strip s) = strip s /\ rstrip (strip s) = strip s.
Proof.
  split.
  - rewrite strip_alt. apply lstrip_by_idem.
  - rewrite strip_unfold. unfold rstrip. apply rstrip_by_idem.
Qed.

Lemma rstrip_by_after_solid (p : ascii -> bool) (x : str) (c : ascii) (y : str) :
  p c = false -> rstrip_by p (x ++ c :: y) = x ++ c :: rstrip_by p y.
Proof.
  intros Hc.
  assert (E : rstrip_by p (c :: y) = c :: rstrip_by p y)
    by now apply rstrip_by_cons_keep.
  rewrite rstrip_by_app_keep; rewrite E; [reflexivity | discriminate].
Qed.

Lemma lstrip_by_free (p : ascii -> bool) (s : str) :
  forallb (fun c => negb (p c)) s = true -> lstrip_by p s = s.
Proof.
  destruct s as [|c t]; [reflexivity|]. simpl. intros H.
  apply andb_prop in H as [H _]. apply negb_true_iff in H. now rewrite H.
Qed.


(** Lowering acts character by character and keeps every class the
    program looks at. *)
Lemma lower_char_idem (c : ascii) : lower_char (lower_char c) = lower_char c.
Proof. destruct c as [[] [] [] [] [] [] [] []]; reflexivity. Qed.

Lemma lower_char_isspace (c : ascii) : isspace (lower_char c) = isspace c.
Proof. destruct c as [[] [] [] [] [] [] [] []]; reflexivity. Qed.

Lemma lower_char_no_break (c : ascii) : no_break (lower_char c) = no_break c.
Proof. destruct c as [[] [] [] [] [] [] [] []]; reflexivity. Qed.

Lemma lower_char_key (c : ascii) : cls_key (lower_char c) = cls_key c.
Proof. destruct c as [[] [] [] [] [] [] [] []]; reflexivity. Qed.

Lemma lower_char_eq (c : ascii) : cls_eq (lower_char c) = cls_eq c.
Proof. destruct c as [[] [] [] [] [] [] [] []]; reflexivity. Qed.

Lemma lower_char_comma (c : ascii) : cls_comma (lower_char c) = cls_comma c.
Proof. destruct c as [[] [] [] [] [] [] [] []]; reflexivity. Qed.

Lemma lower_char_dot (c : ascii) : cls_dot (lower_char c) = cls_dot c.
Proof. destruct c as [[] [] [] [] [] [] [] []]; reflexivity. Qed.

Lemma lower_char_bang (c : ascii) :
  Ascii.eqb "!" (lower_char c) = Ascii.eqb "!" c.
Proof. destruct c as [[] [] [] [] [] [] [] []]; reflexivity. Qed.

Lemma lower_char_bang' (c : ascii) :
  Ascii.eqb (lower_char c) "!" = Ascii.eqb c "!".
Proof. destruct c as [[] [] [] [] [] [] [] []]; reflexivity. Qed.

Lemma lower_char_amp (c : ascii) :
  Ascii.eqb "&" (lower_char c) = Ascii.eqb "&" c.
Proof. destruct c as [[] [] [] [] [] [] [] []]; reflexivity. Qed.

Lemma lower_idem (s : str) : lower (lower s) = lower s.
Proof.
  unfold lower. rewrite map_map. apply map_ext. apply lower_char_idem.
Qed.

Section MapStrip.
Variables (f : ascii -> ascii) (p : ascii -> bool).
Hypothesis p_f : forall c, p (f c) = p c.

Lemma lstrip_by_map (s : str) : lstrip_by p (map f s) = map f (lstrip_by p s).
Proof.
  induction s as [|c t IH]; [reflexivity|]. cbn [map lstrip_by].
  rewrite p_f. destruct (p c); [exact IH | reflexivity].
Qed.

Lemma takewhile_map (s : str) : takewhile p (map f s) = map f (takewhile p s).
Proof.
  induction s as [|c t IH]; [reflexivity|]. cbn [map takewhile].
  rewrite p_f. destruct (p c); [cbn [map]; now rewrite IH | reflexivity].
Qed.

Lemma rstrip_by_map (s : str) : rstrip_by p (map f s) = map f (rstrip_by p s).
Proof.
  unfold rstrip_by. now rewrite <- map_rev, lstrip_by_map, map_rev.
Qed.

Lemma forallb_map_same (s : str) : forallb p (map f s) = forallb p s.
Proof.
  induction s as [|c t IH]; [reflexivity|]. cbn [map forallb].
  now rewrite p_f, IH.
Qed.

End MapStrip.

Lemma strip_lower (s : str) : strip (lower s) = lower (strip s).
Proof.
  unfold strip, strip_by, lower.
  now rewrite (lstrip_by_map _ _ lower_char_isspace),
              (rstrip_by_map _ _ lower_char_isspace).
Qed.

Lemma one_line_lower (s : str) : one_line (lower s) = one_line s.
Proof. apply (forallb_map_same _ _ lower_char_no_break). Qed.

Lemma contains_bang_lower (s : str) : contains "!" (lower s) = contains "!" s.
Proof.
  unfold contains, lower. induction s as [|c t IH]; [reflexivity|].
  cbn [map existsb]. now rewrite lower_char_bang, IH.
Qed.

Lemma split_first_lower (s : str) :
  split_first "!" (lower s)
  = (lower (fst (split_first "!" s)), lower (snd (split_first "!" s))).
Proof.
  induction s as [|c t IH]; [reflexivity|].
  unfold lower in *. cbn [map split_first]. rewrite lower_char_bang'.
  destruct (Ascii.eqb c "!"); [reflexivity|].
  rewrite IH. destruct (split_first "!" t). reflexivity.
Qed.

Lemma value_part_lower (s : str) : value_part (lower s) = lower (value_part s).
Proof.
  unfold value_part. rewrite contains_bang_lower, split_first_lower.
  now destruct (contains "!" s).
Qed.

Lemma match_key_lower (u : str) :
  key_of (match_key (lower u)) = option_map lower (key_of (match_key u)).
Proof.
  unfold match_key, lower.
  rewrite (takewhile_map _ _ lower_char_key),
          (lstrip_by_map _ _ lower_char_key),
          (lstrip_by_map _ _ lower_char_isspace).
  destruct (takewhile cls_key u) as [|k ks]; [reflexivity|]. cbn [map].
  destruct (lstrip_by isspace (lstrip_by cls_key u)) as [|c e]; [reflexivity|].
  cbn [map]. rewrite lower_char_eq. destruct (cls_eq c); reflexivity.
Qed.

Lemma match_kv_lower (s : str) :
  key_of (match_kv (lower s)) = option_map lower (key_of (match_kv s)).
Proof.
  unfold match_kv. unfold lower at 1.
  rewrite (lstrip_by_map _ _ lower_char_isspace).
  destruct (lstrip_by isspace s) as [|c t]; [reflexivity|]. cbn [map].
  rewrite lower_char_comma. fold (lower t).
  assert (Hfull : key_of (match_key (lower_char c :: lower t))
                  = option_map lower (key_of (match_key (c :: t))))
    by apply (match_key_lower (c :: t)).
  destruct (cls_comma c); [|exact Hfull].
  pose proof (match_key_lower (lstrip_by isspace t)) as Hin.
  unfold lower in Hin at 1. rewrite <- (lstrip_by_map _ _ lower_char_isspace) in Hin.
  fold (lower t) in Hin.
  destruct (match_key (lstrip_by isspace (lower t))) as [r1|],
           (match_key (lstrip_by isspace t)) as [r2|];
    cbn [key_of option_map] in *; try discriminate; try exact Hin.
  exact Hfull.
Qed.

Lemma len_lower (s : str) : len (lower s) = len s.
Proof. unfold len, lower. now rewrite length_map. Qed.

Lemma key_length_lower (s : str) : key_length (lower s) = key_length s.
Proof.
  rewrite !key_length_key_of, value_part_lower, match_kv_lower.
  destruct (key_of (match_kv (value_part s))); [|reflexivity].
  cbn [option_map]. now rewrite len_lower.
Qed.

(** * Reading the output lines back *)

Lemma sub_space_not_bang (q : ascii -> bool) :
  (forall c, q c = true -> isspace c = true) -> q "!" = false.
Proof.
  intros Hq. destruct (q "!") eqn:E; [|reflexivity].
  apply Hq in E. discriminate.
Qed.

(** Stripping a line, at the end and of a kind of whitespace at the
    start, changes neither whether the parser accepts it nor the key. *)
Lemma key_of_trim (q : ascii -> bool) (line : str) :
  (forall c, q c = true -> isspace c = true) ->
  key_of (match_kv (value_part (rstrip (lstrip_by q line))))
  = key_of (match_kv (value_part line)).
Proof.
  intros Hq. destruct (contains "!" line) eqn:E.
  - destruct (contains_split _ _ E) as [pre [post [-> Hp]]].
    rewrite (lstrip_by_app_stop q pre "!" post (sub_space_not_bang q Hq)).
    unfold rstrip.
    rewrite (rstrip_by_after_solid isspace _ "!" post eq_refl).
    rewrite (value_part_at _ _ (contains_lstrip_by _ q _ Hp)).
    rewrite (value_part_at _ _ Hp).
    now rewrite (match_kv_lstrip q pre Hq).
  - rewrite (value_part_no_bang _ E).
    rewrite value_part_no_bang.
    + rewrite match_kv_rstrip. now rewrite (match_kv_lstrip q line Hq).
    + unfold rstrip. now apply contains_rstrip_by, contains_lstrip_by.
Qed.

Lemma key_length_strip (line : str) : key_length (strip line) = key_length line.
Proof.
  rewrite !key_length_key_of, strip_unfold.
  now rewrite (key_of_trim isspace line (fun c H => H)).
Qed.

Lemma key_length_nil : key_length [] = None.
Proof. reflexivity. Qed.

Lemma key_length_bang (r : str) : key_length ("!" :: r) = None.
Proof.
  rewrite key_length_key_of.
  pose proof (value_part_at [] r eq_refl) as H. cbn [app] in H.
  now rewrite H.
Qed.

Lemma key_lengths_one (line : str) :
  key_lengths [line]
  = match key_length line with Some n => [n] | None => [] end.
Proof. unfold key_lengths. cbn [flat_map]. apply app_nil_r. Qed.

Lemma key_lengths_app (xs ys : list str) :
  key_lengths (xs ++ ys) = key_lengths xs ++ key_lengths ys.
Proof. unfold key_lengths. apply flat_map_app. Qed.

(** What each answer of [classify] says about the line. *)
Lemma classify_open (line : str) :
  classify line = BlockOpen <-> startswith (lit "&") (strip line) = true.
Proof.
  unfold classify. rewrite strip_clean.
  destruct (startswith (lit "&") (strip line)); [tauto|].
  destruct (str_eqb (strip line) (lit "/")); [split; discriminate|].
  destruct (str_eqb (clean line) []); [split; discriminate|].
  destruct (startswith (lit "!") (strip line)); split; discriminate.
Qed.

Lemma classify_close_inv (line : str) :
  classify line = BlockClose -> strip line = lit "/".
Proof.
  unfold classify. rewrite strip_clean.
  destruct (startswith (lit "&") (strip line)); [discriminate|].
  destruct (str_eqb (strip line) (lit "/")) eqn:E.
  - intros _. now apply str_eqb_eq.
  - destruct (str_eqb (clean line) []); [discriminate|].
    destruct (startswith (lit "!") (strip line)); discriminate.
Qed.

Lemma classify_blank_inv (line : str) :
  classify line = Blank -> clean line = [] /\ strip line = [].
Proof.
  unfold classify. rewrite strip_clean.
  destruct (startswith (lit "&") (strip line)); [discriminate|].
  destruct (str_eqb (strip line) (lit "/")); [discriminate|].
  destruct (str_eqb (clean line) []) eqn:E.
  - intros _. apply str_eqb_eq in E. split; [exact E|].
    rewrite <- strip_clean. unfold lit in E. simpl in E. now rewrite E.
  - destruct (startswith (lit "!") (strip line)); discriminate.
Qed.

Lemma classify_comment_inv (line : str) :
  classify line = Comment -> startswith (lit "!") (strip line) = true.
Proof.
  unfold classify. rewrite strip_clean.
  destruct (startswith (lit "&") (strip line)); [discriminate|].
  destruct (str_eqb (strip line) (lit "/")); [discriminate|].
  destruct (str_eqb (clean line) []); [discriminate|].
  destruct (startswith (lit "!") (strip line)); [reflexivity | discriminate].
Qed.

Lemma classify_comment_intro (line : str) :
  startswith (lit "!") (strip line) = true -> classify line = Comment.
Proof.
  intros H. unfold classify. rewrite strip_clean.
  apply startswith_iff in H as [r Hr]. rewrite Hr. cbn [lit list_ascii_of_string app].
  replace (startswith ["&"] ("!" :: r)) with false by reflexivity.
  replace (str_eqb ("!" :: r) ["/"]) with false.
  2:{ symmetry. apply str_eqb_neq. discriminate. }
  replace (str_eqb (clean line) []) with false.
  2:{ symmetry. apply str_eqb_neq. intros E.
      pose proof (strip_clean line) as Hs. rewrite E, Hr in Hs. discriminate. }
  reflexivity.
Qed.


Lemma one_line_strip (s : str) : one_line s = true -> one_line (strip s) = true.
Proof. apply forallb_strip_by. Qed.

Lemma one_line_spaces (n : Z) : one_line (spaces n) = true.
Proof. apply forallb_spaces. reflexivity. Qed.

Lemma one_line_app (a b : str) :
  one_line (a ++ b) = one_line a && one_line b.
Proof. apply forallb_app. Qed.

(** A block header is read back as the same header. *)
Lemma restep_open (cfg : config) (align : Z) (b : bool) (line : str) :
  one_line line = true -> classify line = BlockOpen ->
  step cfg align b (lower (strip (clean line)))
  = Ok (true, [lower (strip (clean line))]) /\
  key_length (lower (strip (clean line))) = key_length line /\
  one_line (lower (strip (clean line))) = true.
Proof.
  intros Hl Hc. rewrite strip_clean. apply classify_open in Hc.
  assert (Hs : strip (lower (strip line)) = lower (strip line)).
  { now rewrite strip_lower, strip_idem. }
  assert (Ho : classify (lower (strip line)) = BlockOpen).
  { apply classify_open. rewrite Hs.
    apply startswith_iff in Hc as [r Hr]. rewrite Hr. reflexivity. }
  split; [|split].
  - unfold step. rewrite Ho, strip_clean, Hs, lower_idem. reflexivity.
  - now rewrite key_length_lower, key_length_strip.
  - rewrite one_line_lower. now apply one_line_strip.
Qed.



(** The text of a rewritten comment line. *)
Lemma strip_comment_line (ind t : str) :
  forallb isspace ind = true -> strip t = t ->
  strip (ind ++ lit "! " ++ t)
  = "!" :: match t with [] => [] | _ :: _ => " " :: t end.
Proof.
  intros Hi Ht. rewrite (strip_lpad _ _ Hi).
  cbn [lit list_ascii_of_string app].
  rewrite strip_unfold. cbn [lstrip_by]. replace (isspace "!") with false by reflexivity.
  unfold rstrip. rewrite (rstrip_by_cons_keep isspace "!" _ eq_refl).
  rewrite rstrip_by_cons.
  assert (Hr : rstrip_by isspace t = t).
  { rewrite <- Ht. exact (proj2 (strip_ends t)). }
  rewrite Hr. destruct t; reflexivity.
Qed.

Lemma restep_comment_text (cfg : config) (align : Z) (b : bool) (ind t : str) :
  keep_comments cfg = true ->
  ind = (if negb b then [] else spaces (block_indent cfg)) ->
  strip t = t ->
  step cfg align b (ind ++ lit "! " ++ t) = Ok (b, [ind ++ lit "! " ++ t]) /\
  key_length (ind ++ lit "! " ++ t) = None.
Proof.
  intros Hkc Hind Ht.
  assert (Hi : forallb isspace ind = true).
  { rewrite Hind. destruct (negb b); [reflexivity|]. now apply forallb_spaces. }
  pose proof (strip_comment_line ind t Hi Ht) as Hs.
  remember (ind ++ lit "! " ++ t) as o eqn:Eo.
  assert (Ho : classify o = Comment).
  { apply classify_comment_intro. rewrite Hs. reflexivity. }
  assert (Hskip : strip (skipn 1 (strip o)) = t).
  { rewrite Hs. cbn [skipn]. destruct t as [|c t'] eqn:Et; [reflexivity|].
    rewrite <- Et in *. change (" " :: t) with ([" "] ++ t).
    now rewrite (strip_lpad [" "] t eq_refl). }
  split.
  - unfold step. rewrite Ho, Hkc, strip_clean, Hskip, Eo, Hind.
    reflexivity.
  - rewrite Eo, key_length_key_of.
    change (ind ++ lit "! " ++ t) with (ind ++ "!" :: " " :: t).
    rewrite value_part_at.
    + unfold match_kv. now rewrite (lstrip_by_all _ _ Hi).
    + apply contains_false_forallb. revert Hi. apply forallb_impl.
      intros c Hcs. destruct (Ascii.eqb_spec "!" c); [subst; discriminate|reflexivity].
Qed.

Lemma restep_comment (cfg : config) (align : Z) (b : bool) (line : str) :
  one_line line = true -> classify line = Comment ->
  keep_comments cfg = true ->
  let o := (if negb b then [] else spaces (block_indent cfg))
           ++ lit "! " ++ strip (skipn 1 (strip (clean line))) in
  step cfg align b o = Ok (b, [o]) /\
  key_length o = None /\ key_length line = None /\ one_line o = true.
Proof.
  intros Hl Hc Hkc. cbv zeta. rewrite strip_clean.
  destruct (restep_comment_text cfg align b
              (if negb b then [] else spaces (block_indent cfg))
              (strip (skipn 1 (strip line))) Hkc eq_refl
              (strip_idem _)) as [H1 H2].
  split; [exact H1|]. split; [exact H2|]. split.
  - apply classify_comment_inv in Hc. apply startswith_iff in Hc as [r Hr].
    rewrite <- key_length_strip, Hr. apply key_length_bang.
  - assert (Htail : one_line (lit "! " ++ strip (skipn 1 (strip line))) = true).
    { rewrite one_line_app. replace (one_line (lit "! ")) with true by reflexivity.
      cbn [andb]. apply one_line_strip.
      apply one_line_strip in Hl. unfold one_line in *.
      rewrite <- (firstn_skipn 1 (strip line)), forallb_app in Hl.
      apply andb_prop in Hl as [_ Hl]. exact Hl. }
    destruct (negb b); [exact Htail|].
    now rewrite one_line_app, one_line_spaces.
Qed.

(** * What the rewriting of the value preserves *)

Section Preserved.
Variable q : ascii -> bool.

Lemma forallb_split (sep : ascii) (s : str) :
  forallb q s = true ->
  forall item, In item (split sep s) -> forallb q item = true.
Proof.
  induction s as [|c t IH]; intros H item Hin.
  - destruct Hin as [<-|[]]. reflexivity.
  - simpl in H. apply andb_prop in H as [Hc Ht]. cbn [split] in Hin.
    destruct (Ascii.eqb c sep).
    + destruct Hin as [<-|Hin]; [reflexivity | now apply IH].
    + destruct (split sep t) as [|l ls] eqn:E.
      * destruct Hin as [<-|[]]. simpl. now rewrite Hc.
      * destruct Hin as [<-|Hin].
        -- simpl. rewrite Hc. apply (IH Ht). now left.
        -- apply (IH Ht). now right.
Qed.

Lemma forallb_join (sep : str) (items : list str) :
  forallb q sep = true ->
  (forall item, In item items -> forallb q item = true) ->
  forallb q (join sep items) = true.
Proof.
  intros Hsep. induction items as [|x rest IH]; intros H; [reflexivity|].
  cbn [join]. destruct rest as [|y rest'].
  - apply H. now left.
  - rewrite !forallb_app, Hsep, (H x (or_introl eq_refl)). cbn [andb].
    apply IH. intros item Hin. apply H. now right.
Qed.

Lemma forallb_replace_from (old new : str) (k : nat) (s : str) :
  forallb q new = true -> forallb q s = true ->
  forallb q (replace_from old new k s) = true.
Proof.
  intros Hnew. revert k. induction s as [|c t IH]; intros k H; [reflexivity|].
  simpl in H. apply andb_prop in H as [Hc Ht]. cbn [replace_from].
  destruct k as [|k]; [|now apply IH].
  destruct (startswith old (c :: t)).
  - rewrite forallb_app, Hnew. now apply IH.
  - simpl. rewrite Hc. now apply IH.
Qed.

Lemma forallb_replace (old new s : str) :
  forallb q new = true -> forallb q s = true ->
  forallb q (replace old new s) = true.
Proof. apply forallb_replace_from. Qed.

(** The rewriting of the value only adds characters of ", .truefals'". *)
Lemma forallb_normalize_value (v : str) :
  forallb q (lit ", .truefals'") = true ->
  forallb q v = true -> forallb q (normalize_value v) = true.
Proof.
  intros Hq Hv. unfold normalize_value.
  assert (H0 : forallb q (if contains "," v
                          then join (lit ", ") (map strip (split "," v))
                          else v) = true).
  { destruct (contains "," v); [|exact Hv]. apply forallb_join.
    - cbn in Hq |- *. repeat (apply andb_prop in Hq as [? Hq]).
      now repeat (apply andb_true_intro; split).
    - intros item Hin. apply in_map_iff in Hin as [x [<- Hx]].
      apply forallb_strip_by. now apply (forallb_split "," v). }
  cbn [fold_left TRUE_REPR FALSE_REPR].
  assert (Ht : forallb q (lit ".true.") = true).
  { cbn in Hq |- *. repeat (apply andb_prop in Hq as [? Hq]).
    now repeat (apply andb_true_intro; split). }
  assert (Hf : forallb q (lit ".false.") = true).
  { cbn in Hq |- *. repeat (apply andb_prop in Hq as [? Hq]).
    now repeat (apply andb_true_intro; split). }
  assert (Hs : forallb q ["'"] = true).
  { cbn in Hq |- *. repeat (apply andb_prop in Hq as [? Hq]).
    now repeat (apply andb_true_intro; split). }
  repeat (apply forallb_replace; [assumption|]). exact H0.
Qed.

Lemma forallb_value_part (s : str) :
  forallb q s = true -> forallb q (value_part s) = true.
Proof.
  intros H. destruct (contains "!" s) eqn:E.
  - destruct (contains_split _ _ E) as [pre [post [-> Hp]]].
    rewrite (value_part_at _ _ Hp). rewrite forallb_app in H.
    now apply andb_prop in H.
  - now rewrite (value_part_no_bang _ E).
Qed.

Lemma forallb_clean (s : str) : forallb q s = true -> forallb q (clean s) = true.
Proof.
  intros H. rewrite clean_eq. now apply forallb_rstrip_by, forallb_lstrip_by.
Qed.

End Preserved.

(** The comment of a line is empty or " ! " and a stripped text. *)
Lemma comment_of_shape (s : str) :
  comment_of s = [] \/
  exists t, comment_of s = lit " ! " ++ t /\ strip t = t /\
            (one_line s = true -> one_line t = true).
Proof.
  destruct (contains "!" s) eqn:E.
  - right. destruct (contains_split _ _ E) as [pre [post [-> Hp]]].
    rewrite (comment_of_at _ _ Hp). exists (strip post).
    split; [reflexivity|]. split; [apply strip_idem|].
    intros H. apply one_line_strip. rewrite one_line_app in H.
    apply andb_prop in H as [_ H]. unfold one_line in *.
    cbn [forallb] in H. apply andb_prop in H as [_ H]. exact H.
  - left. now apply comment_of_no_bang.
Qed.


(** * Reading a formatted assignment line back *)







Lemma is_cst_comma (tc : bool) :
  forallb is_cst (if tc then lit "," else []) = true.
Proof. now destruct tc. Qed.






(** * Formatting the output again *)


Lemma key_lengths_none (o : str) : key_length o = None -> key_lengths [o] = [].
Proof. intros H. now rewrite key_lengths_one, H. Qed.






(** * Idempotence *)





(** * Further properties of the line parser *)

Lemma value_part_app (a s : str) :
  contains "!" a = false -> value_part (a ++ s) = a ++ value_part s.
Proof.
  intros Ha. destruct (contains "!" s) eqn:E.
  - destruct (contains_split _ _ E) as [pre [post [-> Hp]]].
    rewrite (value_part_at _ _ Hp), app_assoc.
    apply value_part_at. now rewrite contains_app, Ha, Hp.
  - rewrite (value_part_no_bang _ E). apply value_part_no_bang.
    now rewrite contains_app, Ha, E.
Qed.

Lemma comment_of_app (a s : str) :
  contains "!" a = false -> comment_of (a ++ s) = comment_of s.
Proof.
  intros Ha. destruct (contains "!" s) eqn:E.
  - destruct (contains_split _ _ E) as [pre [post [-> Hp]]].
    rewrite (comment_of_at _ _ Hp), app_assoc.
    apply comment_of_at. now rewrite contains_app, Ha, Hp.
  - rewrite (comment_of_no_bang _ E). apply comment_of_no_bang.
    now rewrite contains_app, Ha, E.
Qed.

Lemma space_not_bang (ws : str) :
  forallb isspace ws = true -> contains "!" ws = false.
Proof.
  intros H. apply contains_false_forallb. revert H. apply forallb_impl.
  intros c Hc. destruct (Ascii.eqb_spec "!" c); [subst; discriminate | reflexivity].
Qed.

(** X1. What the parser returns is well formed: the key is not empty and
    holds no whitespace, no [=] and no [!]; the value is stripped and
    holds neither [!] nor a newline; the comment is empty or " ! "
    followed by a stripped text. *)
Theorem parse_fields_wellformed (line key value comment : str) :
  parse_key_val_pair line = Ok (key, value, comment) ->
  key <> [] /\
  forallb (fun c => negb (isspace c) && negb (Ascii.eqb c "=")) key = true /\
  contains "!" key = false /\
  contains "!" value = false /\
  contains "010" value = false /\
  strip value = value /\
  (comment = [] \/ exists t, comment = lit " ! " ++ t /\ strip t = t).
Proof.
  intros Hp.
  destruct (parse_ok_fields _ _ _ _ Hp) as (Hne & Hk & Ec & Hq).
  destruct (Hq not_bang) as [Hkb Hvb].
  { apply contains_false_forallb. apply value_part_clean. }
  split; [exact Hne|]. split; [exact Hk|].
  split; [now apply contains_false_forallb|].
  split; [now apply contains_false_forallb|].
  rewrite parse_unfold in Hp.
  destruct (match_kv (value_part line)) as [caps|] eqn:Em; [|discriminate].
  destruct (match_kv_shape _ _ Em) as (u & tail & -> & _).
  unfold group in Hp. cbn [Nat.sub nth] in Hp. injection Hp as _ Ev _.
  split; [|split].
  - apply contains_false_forallb. rewrite <- Ev. unfold trim_value, strip, rstrip_chars.
    apply forallb_strip_by, forallb_rstrip_by.
    pose proof (takewhile_forallb cls_dot (lstrip_by cls_eq tail)) as Hd.
    revert Hd. apply forallb_impl. intros c Hc. unfold cls_dot in Hc.
    now rewrite Ascii.eqb_sym.
  - rewrite <- Ev. unfold trim_value. apply strip_idem.
  - rewrite Ec. destruct (comment_of_shape line) as [E | (t & E & Ht & _)];
      [now left | right; eauto].
Qed.

Lemma parse_fields_wellformed_witness :
  parse_key_val_pair (lit "  Key  = 'x' , ! note ")
  = Ok (lit "Key", lit "'x'", lit " ! note") /\
  contains "!" (lit "'x'") = false /\ strip (lit "'x'") = lit "'x'".
Proof.
  pose proof (parse_fields_wellformed (lit "  Key  = 'x' , ! note ")
                (lit "Key") (lit "'x'") (lit " ! note") eq_refl)
    as (_ & _ & _ & H1 & _ & H2 & _).
  split; [reflexivity|]. split; [exact H1 | exact H2].
Defined.

(** The scan only looks at the text from its first character that is
    not whitespace. *)
Lemma match_kv_lpad (ws s : str) :
  forallb isspace ws = true -> match_kv (ws ++ s) = match_kv s.
Proof.
  intros H. unfold match_kv. now rewrite lstrip_by_app_all.
Qed.

Lemma match_kv_leading_comma (ws s : str) (caps : list str) :
  forallb isspace ws = true ->
  startswith (lit ",") (strip s) = false ->
  match_kv s = Some caps ->
  match_kv (ws ++ "," :: s) = Some caps.
Proof.
  intros Hw Hc Hm. unfold match_kv in *. rewrite lstrip_by_app_all by exact Hw.
  cbn [lstrip_by]. replace (isspace ",") with false by reflexivity.
  replace (cls_comma ",") with true by reflexivity.
  destruct (lstrip_by isspace s) as [|c t] eqn:Es; [discriminate|].
  assert (Hcc : cls_comma c = false).
  { rewrite strip_alt in Hc. unfold rstrip in Hc.
    rewrite lstrip_by_rstrip_by_comm, Es in Hc.
    pose proof (lstrip_by_head isspace s) as Hh. rewrite Es in Hh.
    rewrite (rstrip_by_cons_keep isspace c t Hh) in Hc.
    cbn [lit list_ascii_of_string startswith] in Hc.
    rewrite andb_true_r in Hc. unfold cls_comma. now rewrite Ascii.eqb_sym. }
  rewrite Hcc in Hm. now rewrite Hm.
Qed.

(** X2. Indentation is ignored by the parser, and so is one comma before
    the key (the leading-comma style of namelists): a line that parses
    gives the same key, value and comment when whitespace, or
    whitespace and a comma, is put in front of it, provided the line
    itself does not start with a comma. *)
Theorem parse_ignores_indent_and_comma (ws s key value comment : str) :
  forallb isspace ws = true ->
  parse_key_val_pair s = Ok (key, value, comment) ->
  parse_key_val_pair (ws ++ s) = Ok (key, value, comment) /\
  (startswith (lit ",") (strip s) = false ->
   parse_key_val_pair (ws ++ "," :: s) = Ok (key, value, comment)).
Proof.
  intros Hw Hp. pose proof (space_not_bang ws Hw) as Hb.
  rewrite parse_unfold in Hp.
  destruct (match_kv (value_part s)) as [caps|] eqn:Em; [|discriminate].
  split.
  - rewrite parse_unfold, (value_part_app ws s Hb), (comment_of_app ws s Hb).
    now rewrite (match_kv_lpad ws _ Hw), Em.
  - intros Hc.
    assert (Hb' : contains "!" (ws ++ [","]) = false)
      by now rewrite contains_app, Hb.
    replace (ws ++ "," :: s) with ((ws ++ [","]) ++ s)
      by now rewrite <- app_assoc.
    rewrite parse_unfold, (value_part_app _ s Hb'), (comment_of_app _ s Hb').
    rewrite <- app_assoc. cbn [app].
    rewrite (match_kv_leading_comma ws (value_part s) caps Hw); [exact Hp| |exact Em].
    unfold value_part. destruct (contains "!" s) eqn:E; [|exact Hc].
    destruct (contains_split _ _ E) as [pre [post [-> Hpre]]].
    rewrite (split_first_at _ _ _ Hpre). cbn [fst].
    rewrite strip_alt in Hc |- *. unfold rstrip in Hc.
    rewrite (rstrip_by_after_solid isspace pre "!" post eq_refl) in Hc.
    rewrite lstrip_by_rstrip_by_comm.
    destruct (lstrip_by isspace pre) as [|c t] eqn:Ep; [reflexivity|].
    rewrite (lstrip_by_app_stop isspace pre "!" _ eq_refl), Ep in Hc.
    pose proof (lstrip_by_head isspace pre) as Hh. rewrite Ep in Hh.
    rewrite (rstrip_by_cons_keep isspace c t Hh).
    cbn [app lit list_ascii_of_string startswith] in Hc |- *.
    now rewrite andb_true_r in *.
Qed.

Lemma parse_ignores_indent_and_comma_witness :
  forallb isspace (lit "   ") = true /\
  parse_key_val_pair (lit "b = 2") = Ok (lit "b", lit "2", []) /\
  parse_key_val_pair (lit "   b = 2") = Ok (lit "b", lit "2", []) /\
  parse_key_val_pair (lit "   ,b = 2") = Ok (lit "b", lit "2", []).
Proof.
  destruct (parse_ignores_indent_and_comma (lit "   ") (lit "b = 2")
              (lit "b") (lit "2") [] eq_refl eq_refl) as [H1 H2].
  split; [reflexivity|]. split; [reflexivity|]. split; [exact H1|].
  exact (H2 eq_refl).
Defined.

Lemma takewhile_app_stop (p : ascii -> bool) (a : str) (c : ascii) (b : str) :
  p c = false -> takewhile p (a ++ c :: b) = takewhile p a.
Proof.
  intros Hc. induction a as [|x a IH]; simpl; [now rewrite Hc|].
  destruct (p x); [now rewrite IH | reflexivity].
Qed.

Lemma contains_eq_cons (x : ascii) (a : str) :
  contains "=" (x :: a) = false -> cls_eq x = false /\ contains "=" a = false.
Proof.
  unfold contains. simpl. intros H. apply orb_false_iff in H as [H1 H2].
  split; [|exact H2]. unfold cls_eq. now rewrite Ascii.eqb_sym.
Qed.

(** The scan from the key on does not count the [=] signs. *)
Lemma match_key_double_eq (a z : str) :
  contains "=" a = false ->
  match_key (a ++ "=" :: "=" :: z) = match_key (a ++ "=" :: z).
Proof.
  intros Ha. unfold match_key.
  rewrite !(takewhile_app_stop cls_key a "=" _ eq_refl).
  rewrite !(lstrip_by_app_stop cls_key a "=" _ eq_refl).
  rewrite !(lstrip_by_app_stop isspace _ "=" _ eq_refl).
  destruct (takewhile cls_key a) as [|k ks]; [reflexivity|].
  assert (Hin : contains "=" (lstrip_by isspace (lstrip_by cls_key a)) = false)
    by now apply contains_lstrip_by, contains_lstrip_by.
  destruct (lstrip_by isspace (lstrip_by cls_key a)) as [|c e].
  - cbn [app]. replace (cls_eq "=") with true by reflexivity.
    cbn [lstrip_by]. now replace (cls_eq "=") with true by reflexivity.
  - cbn [app]. apply contains_eq_cons in Hin as [Hc _]. now rewrite Hc.
Qed.

Lemma match_kv_double_eq (pre z : str) :
  contains "=" pre = false ->
  match_kv (pre ++ "=" :: "=" :: z) = match_kv (pre ++ "=" :: z).
Proof.
  intros Hp. unfold match_kv.
  rewrite !(lstrip_by_app_stop isspace pre "=" _ eq_refl).
  assert (Hin : contains "=" (lstrip_by isspace pre) = false)
    by now apply contains_lstrip_by.
  destruct (lstrip_by isspace pre) as [|c t]; [reflexivity|].
  pose proof (match_key_double_eq (c :: t) z Hin) as Hfull.
  apply contains_eq_cons in Hin as [_ Ht]. cbn [app] in *.
  destruct (cls_comma c); [|exact Hfull].
  rewrite !(lstrip_by_app_stop isspace t "=" _ eq_refl).
  rewrite (match_key_double_eq (lstrip_by isspace t) z
             (contains_lstrip_by "=" isspace t Ht)).
  destruct (match_key (lstrip_by isspace t ++ "=" :: z)); [reflexivity|].
  exact Hfull.
Qed.

(** X3. The number of [=] signs between key and value does not matter:
    for a text [pre] without [=] and without [!], the line with two
    [=] after [pre] parses exactly as the line with one (the same key,
    value and comment), and is refused when that one is. *)
Theorem parse_repeated_eq (pre rest : str) :
  contains "=" pre = false -> contains "!" pre = false ->
  match parse_key_val_pair (pre ++ "=" :: rest) with
  | Ok r => parse_key_val_pair (pre ++ "=" :: "=" :: rest) = Ok r
  | Raise _ =>
      exists msg,
        parse_key_val_pair (pre ++ "=" :: "=" :: rest) = Raise (ValueError msg)
  end.
Proof.
  intros He Hb.
  assert (Hb1 : contains "!" (pre ++ ["="]) = false)
    by now rewrite contains_app, Hb.
  assert (Hb2 : contains "!" (pre ++ ["="; "="]) = false)
    by now rewrite contains_app, Hb.
  assert (Hv1 : value_part (pre ++ "=" :: rest) = pre ++ "=" :: value_part rest).
  { replace (pre ++ "=" :: rest) with ((pre ++ ["="]) ++ rest)
      by now rewrite <- app_assoc.
    rewrite value_part_app by assumption. now rewrite <- app_assoc. }
  assert (Hv2 : value_part (pre ++ "=" :: "=" :: rest)
                = pre ++ "=" :: "=" :: value_part rest).
  { replace (pre ++ "=" :: "=" :: rest) with ((pre ++ ["="; "="]) ++ rest)
      by now rewrite <- app_assoc.
    rewrite value_part_app by assumption. now rewrite <- app_assoc. }
  assert (Hc1 : comment_of (pre ++ "=" :: rest) = comment_of rest).
  { replace (pre ++ "=" :: rest) with ((pre ++ ["="]) ++ rest)
      by now rewrite <- app_assoc.
    now apply comment_of_app. }
  assert (Hc2 : comment_of (pre ++ "=" :: "=" :: rest) = comment_of rest).
  { replace (pre ++ "=" :: "=" :: rest) with ((pre ++ ["="; "="]) ++ rest)
      by now rewrite <- app_assoc.
    now apply comment_of_app. }
  rewrite !parse_unfold, Hv1, Hv2, Hc1, Hc2.
  rewrite (match_kv_double_eq pre (value_part rest) He).
  destruct (match_kv (pre ++ "=" :: value_part rest)); [reflexivity | eauto].
Qed.

Lemma parse_repeated_eq_witness :
  contains "=" (lit "a ") = false /\ contains "!" (lit "a ") = false /\
  parse_key_val_pair (lit "a == 1") = Ok (lit "a", lit "1", []).
Proof.
  split; [reflexivity|]. split; [reflexivity|].
  exact (parse_repeated_eq (lit "a ") (lit " 1") eq_refl eq_refl).
Defined.

(** * Further properties of the line formatter *)

(** X4. The comment of a line is appended to the formatted text of what
    stands before it.  For a text [pre] without [!] that formats to
    [fl], the line [pre ! post] formats to [fl] when comments are
    dropped and to [fl], " ! " and the stripped [post] when they are
    kept; when [pre] does not parse, neither does the line. *)
Theorem format_line_comment (pre post : str) (align bi : Z) (tc : bool) :
  contains "!" pre = false ->
  match format_line pre align bi tc false with
  | Ok fl =>
      format_line pre align bi tc true = Ok fl /\
      format_line (pre ++ "!" :: post) align bi tc false = Ok fl /\
      format_line (pre ++ "!" :: post) align bi tc true
      = Ok (fl ++ lit " ! " ++ strip post)
  | Raise _ =>
      forall kc, exists msg,
        format_line (pre ++ "!" :: post) align bi tc kc
        = Raise (ValueError msg)
  end.
Proof.
  intros Hb. unfold format_line. rewrite !parse_unfold.
  rewrite (value_part_no_bang _ Hb), (comment_of_no_bang _ Hb).
  rewrite (value_part_at _ post Hb), (comment_of_at _ post Hb).
  destruct (match_kv pre) as [caps|]; cbn [bind].
  - split; [reflexivity|]. split; [reflexivity|].
    f_equal. rewrite !app_nil_r. now rewrite <- !app_assoc.
  - intros kc. eauto.
Qed.

Lemma format_line_comment_witness :
  contains "!" (lit "a = 1 ") = false /\
  format_line (lit "a = 1 !  note ") 6 2 true true
  = Ok (lit "  a     = 1, ! note").
Proof.
  split; [reflexivity|].
  exact (proj2 (proj2 (format_line_comment (lit "a = 1 ") (lit "  note ")
                         6 2 true eq_refl))).
Defined.

Lemma requote_not_quote (c : ascii) : Ascii.eqb "034" (requote c) = false.
Proof.
  unfold requote. destruct (Ascii.eqb_spec c "034") as [->|Hne]; [reflexivity|].
  destruct (Ascii.eqb_spec "034" c); [congruence | reflexivity].
Qed.

(** X5. No double quote is left in a rewritten value. *)
Theorem normalize_value_no_double_quote (value : str) :
  contains "034" (normalize_value value) = false.
Proof.
  unfold normalize_value. rewrite replace_quote. unfold contains.
  induction (fold_left _ FALSE_REPR _) as [|c s IH]; [reflexivity|].
  cbn [map existsb]. now rewrite requote_not_quote, IH.
Qed.

(** A text in which [old] does not occur is left as it is. *)
Lemma replace_absent (old new s : str) :
  old <> [] -> ~ occurs old s -> replace old new s = s.
Proof.
  intros Hne Hno.
  apply (replaced_all_unique old new s _ _ Hne).
  - now apply replace_replaced_all.
  - now apply replaced_none.
Qed.

Lemma map_requote_id (s : str) : contains "034" s = false -> map requote s = s.
Proof.
  unfold contains. induction s as [|c s IH]; [reflexivity|].
  cbn [existsb map]. intros H. apply orb_false_iff in H as [Hc Hs].
  rewrite (IH Hs). f_equal. unfold requote.
  rewrite Ascii.eqb_sym in Hc. now rewrite Hc.
Qed.

Lemma occursb_spec (old s : str) : occursb old s = true <-> occurs old s.
Proof.
  split.
  - induction s as [|c t IH]; cbn [occursb]; rewrite orb_true_iff.
    + intros [H|H]; [|discriminate].
      apply startswith_iff in H as [b Hb]. now exists [], b.
    + intros [H|H].
      * apply startswith_iff in H as [b Hb]. now exists [], b.
      * destruct (IH H) as [a [b ->]]. now exists (c :: a), b.
  - intros [a [b ->]]. induction a as [|c a IH].
    + cbn [app]. destruct (old ++ b) eqn:E; cbn [occursb]; rewrite <- E;
        (replace (startswith old (old ++ b)) with true;
         [reflexivity | symmetry; apply startswith_iff; now exists b]).
    + cbn [app occursb]. rewrite IH. apply orb_true_r.
Qed.

Lemma occursb_false (old s : str) : occursb old s = false -> ~ occurs old s.
Proof.
  intros H Ho. apply occursb_spec in Ho. congruence.
Qed.

(** X6. A value that holds no comma, no double quote and none of [.t.],
    [.TRUE.], [.f.], [.FALSE.] goes through the rewriting unchanged. *)
Theorem normalize_value_plain (value : str) :
  contains "," value = false ->
  contains "034" value = false ->
  occursb (lit ".t.") value = false -> occursb (lit ".TRUE.") value = false ->
  occursb (lit ".f.") value = false -> occursb (lit ".FALSE.") value = false ->
  normalize_value value = value.
Proof.
  intros Hc Hq H1 H2 H3 H4. unfold normalize_value. rewrite Hc.
  apply occursb_false in H1, H2, H3, H4.
  cbn [fold_left TRUE_REPR FALSE_REPR].
  rewrite (replace_absent (lit ".t.") _ value) by (assumption || discriminate).
  rewrite (replace_absent (lit ".TRUE.") _ value) by (assumption || discriminate).
  rewrite (replace_absent (lit ".f.") _ value) by (assumption || discriminate).
  rewrite (replace_absent (lit ".FALSE.") _ value) by (assumption || discriminate).
  rewrite replace_quote. now apply map_requote_id.
Qed.

Lemma normalize_value_plain_witness :
  contains "," (lit "-1.5e3") = false /\
  occursb (lit ".t.") (lit "-1.5e3") = false /\
  normalize_value (lit "-1.5e3") = lit "-1.5e3".
Proof.
  split; [reflexivity|]. split; [reflexivity|].
  exact (normalize_value_plain (lit "-1.5e3") eq_refl eq_refl eq_refl eq_refl
           eq_refl eq_refl).
Defined.

Lemma prefix_without (old b x y : str) (c : ascii) :
  contains c old = false -> old ++ b = x ++ c :: y ->
  exists x', x = old ++ x'.
Proof.
  intros Hc E. apply app_eq_app in E as [l [[E1 E2]|[E1 E2]]].
  - destruct l as [|d l].
    + exists []. rewrite app_nil_r in E1. now rewrite E1, app_nil_r.
    + injection E2 as <- _. rewrite E1, contains_app, contains_cons_same in Hc.
      now rewrite orb_true_r in Hc.
  - now exists l.
Qed.

Lemma startswith_app_sep (old x y : str) (c : ascii) :
  contains c old = false ->
  startswith old (x ++ c :: y) = startswith old x.
Proof.
  intros Hc. destruct (startswith old x) eqn:E.
  - apply startswith_iff in E as [b ->]. apply startswith_iff.
    exists (b ++ c :: y). now rewrite <- app_assoc.
  - destruct (startswith old (x ++ c :: y)) eqn:E2; [|reflexivity].
    apply startswith_iff in E2 as [b Hb]. symmetry in Hb.
    destruct (prefix_without old b x y c Hc Hb) as [x' ->].
    rewrite <- E. symmetry. apply startswith_iff. now exists x'.
Qed.

(** [replace] works on each side of a character that [old] does not
    hold. *)
Lemma replace_sep (old new x y : str) (c : ascii) :
  old <> [] -> contains c old = false ->
  replace old new (x ++ c :: y)
  = replace old new x ++ c :: replace old new y.
Proof.
  intros Hne Hc.
  remember (List.length x) as n eqn:En. revert x En.
  induction n as [n IH] using lt_wf_ind. intros x En.
  destruct x as [|d x'].
  - cbn [app]. rewrite replace_nil. cbn [app]. apply replace_miss.
    pose proof (startswith_app_sep old [] y c Hc) as H. cbn [app] in H.
    rewrite H. destruct old; [congruence | reflexivity].
  - destruct (startswith old (d :: x')) eqn:Es.
    + apply startswith_iff in Es as [b Eb]. rewrite Eb, <- app_assoc.
      rewrite !replace_hit by assumption. rewrite <- app_assoc. f_equal.
      apply (IH (List.length b)); [|reflexivity].
      subst n. rewrite Eb, length_app. destruct old; [congruence|]. simpl. lia.
    + cbn [app]. rewrite replace_miss.
      * rewrite (replace_miss old new d x' Es). cbn [app]. f_equal.
        apply (IH (List.length x')); [subst n; simpl; lia | reflexivity].
      * change (d :: x' ++ c :: y) with ((d :: x') ++ c :: y).
        now rewrite startswith_app_sep.
Qed.

Lemma replace_join (old new : str) (xs : list str) :
  old <> [] -> contains "," old = false -> contains " " old = false ->
  replace old new (join (lit ", ") xs)
  = join (lit ", ") (map (replace old new) xs).
Proof.
  intros Hne H1 H2. induction xs as [|x rest IH]; [reflexivity|].
  destruct rest as [|y rest']; [reflexivity|].
  change (join (lit ", ") (x :: y :: rest'))
    with (x ++ "," :: " " :: join (lit ", ") (y :: rest')).
  rewrite (replace_sep old new x _ "," Hne H1).
  pose proof (replace_sep old new [] (join (lit ", ") (y :: rest')) " " Hne H2)
    as Hs. cbn [app] in Hs. rewrite replace_nil in Hs. cbn [app] in Hs.
  rewrite Hs, IH. reflexivity.
Qed.

Lemma split_no_sep (c : ascii) (s : str) :
  forall item, In item (split c s) -> contains c item = false.
Proof.
  induction s as [|d t IH]; intros item Hin.
  - destruct Hin as [<-|[]]. reflexivity.
  - cbn [split] in Hin. destruct (Ascii.eqb_spec d c) as [->|Hne].
    + destruct Hin as [<-|Hin]; [reflexivity | now apply IH].
    + destruct (split c t) as [|l ls] eqn:E.
      * destruct Hin as [<-|[]]. unfold contains. simpl.
        destruct (Ascii.eqb_spec c d); [congruence | reflexivity].
      * assert (Hl : contains c (d :: l) = false).
        { unfold contains. simpl.
          destruct (Ascii.eqb_spec c d); [congruence|]. simpl.
          apply (IH l). now left. }
        destruct Hin as [<-|Hin]; [exact Hl | apply IH; now right].
Qed.

(** X7. A list of values is rewritten element by element: when the value
    holds a comma, its rewriting is the rewritings of its stripped
    elements joined by ", ". *)
Theorem normalize_value_elementwise (value : str) :
  contains "," value = true ->
  normalize_value value
  = join (lit ", ")
         (map (fun item => normalize_value (strip item)) (split "," value)).
Proof.
  intros Hc. unfold normalize_value at 1. rewrite Hc.
  cbn [fold_left TRUE_REPR FALSE_REPR].
  rewrite !replace_join by (reflexivity || discriminate).
  rewrite !map_map. f_equal. apply map_ext_in. intros item Hin.
  unfold normalize_value.
  replace (contains "," (strip item)) with false; [reflexivity|].
  symmetry. unfold strip, strip_by.
  apply contains_rstrip_by, contains_lstrip_by. now apply (split_no_sep "," value).
Qed.

Lemma normalize_value_elementwise_witness :
  contains "," (lit ".t. ,  .FALSE.") = true /\
  normalize_value (lit ".t. ,  .FALSE.") = lit ".true., .false.".
Proof.
  split; [reflexivity|].
  exact (normalize_value_elementwise (lit ".t. ,  .FALSE.") eq_refl).
Defined.

(** * Further properties of the document formatter *)

Lemma parse_raise_message (line : str) (e : exn) :
  parse_key_val_pair line = Raise e ->
  e = ValueError (lit "No key matched in " ++ line).
Proof.
  rewrite parse_unfold. destruct (match_kv (value_part line)); [discriminate|].
  intros H. now injection H as <-.
Qed.

Lemma format_line_raise_iff (line : str) (align bi : Z) (tc kc : bool) (e : exn) :
  format_line line align bi tc kc = Raise e <->
  parse_key_val_pair line = Raise e.
Proof.
  unfold format_line.
  destruct (parse_key_val_pair line) as [[[k v] c]|e']; cbn [bind];
    split; intros H; try discriminate; now injection H as ->.
Qed.

(** One turn of the loop raises only on an assignment line that the
    parser refuses. *)
Lemma step_raise_iff (cfg : config) (align : Z) (b : bool) (line : str)
      (e : exn) :
  step cfg align b line = Raise e <->
  classify line = Assignment /\ parse_key_val_pair (clean line) = Raise e.
Proof.
  unfold step. destruct (classify line);
    try (split; [discriminate | intros [H _]; discriminate]).
  destruct (format_line (clean line) align (block_indent cfg)
                        (trailing_comma cfg) (keep_comments cfg)) as [fl|e']
    eqn:Ef; cbn [bind].
  - split; [discriminate|]. intros [_ H].
    apply (format_line_raise_iff _ align (block_indent cfg)
             (trailing_comma cfg) (keep_comments cfg)) in H. congruence.
  - apply format_line_raise_iff in Ef. split.
    + intros H. injection H as <-. now split.
    + intros [_ H]. congruence.
Qed.

Lemma step_ok_if (cfg : config) (align : Z) (b : bool) (line : str) :
  (classify line = Assignment ->
   exists r, parse_key_val_pair (clean line) = Ok r) ->
  exists r, step cfg align b line = Ok r.
Proof.
  intros H. destruct (step cfg align b line) as [r|e] eqn:Es; [eauto|].
  apply step_raise_iff in Es as [Hc Hp]. destruct (H Hc) as [r Hr]. congruence.
Qed.

Lemma step_ok_inv (cfg : config) (align : Z) (b : bool) (line : str)
      (r : bool * list str) :
  step cfg align b line = Ok r ->
  classify line = Assignment ->
  exists p, parse_key_val_pair (clean line) = Ok p.
Proof.
  intros Hs Hc. destruct (parse_key_val_pair (clean line)) as [p|e] eqn:Ep;
    [eauto|].
  assert (H : step cfg align b line = Raise e) by now apply step_raise_iff.
  congruence.
Qed.

Lemma run_raise_iff (cfg : config) (align : Z) (lines : list str) :
  forall (b : bool) (e : exn),
  run cfg align b lines = Raise e <->
  exists pre line post,
    lines = pre ++ line :: post /\
    classify line = Assignment /\
    parse_key_val_pair (clean line) = Raise e /\
    forall l, In l pre -> classify l = Assignment ->
              exists p, parse_key_val_pair (clean l) = Ok p.
Proof.
  induction lines as [|x rest IH]; intros b e.
  - split; [discriminate|]. intros (pre & line & post & E & _).
    destruct pre; discriminate.
  - cbn [run]. destruct (step cfg align b x) as [[b1 o1]|e1] eqn:Es; cbn [bind].
    + destruct (run cfg align b1 rest) as [[b2 o2]|e2] eqn:Er; cbn [bind].
      * split; [discriminate|]. intros (pre & line & post & E & Hc & Hp & Hpre).
        destruct pre as [|y pre'].
        -- injection E as -> ->.
           assert (H : step cfg align b line = Raise e) by now apply step_raise_iff.
           congruence.
        -- injection E as -> ->.
           assert (H : run cfg align b1 (pre' ++ line :: post) = Raise e).
           { apply IH. exists pre', line, post. repeat split; try assumption.
             intros l Hl. apply Hpre. now right. }
           congruence.
      * split.
        -- intros H. injection H as <-.
           apply IH in Er as (pre & line & post & -> & Hc & Hp & Hpre).
           exists (x :: pre), line, post. repeat split; try assumption.
           intros l [<-|Hl]; [|now apply Hpre].
           now apply (step_ok_inv cfg align b x (b1, o1)).
        -- intros (pre & line & post & E & Hc & Hp & Hpre).
           destruct pre as [|y pre'].
           ++ injection E as -> ->.
              assert (H : step cfg align b line = Raise e)
                by now apply step_raise_iff.
              congruence.
           ++ injection E as -> ->.
              assert (H : run cfg align b1 (pre' ++ line :: post) = Raise e).
              { apply IH. exists pre', line, post. repeat split; try assumption.
                intros l Hl. apply Hpre. now right. }
              congruence.
    + apply step_raise_iff in Es as [Hc Hp]. split.
      * intros H. injection H as <-. exists [], x, rest. repeat split; try assumption.
        intros l [].
      * intros (pre & line & post & E & Hc' & Hp' & Hpre).
        destruct pre as [|y pre'].
        -- injection E as -> ->. congruence.
        -- injection E as -> ->.
           destruct (Hpre y (or_introl eq_refl) Hc) as [p Hy]. congruence.
Qed.

(** A loop that ends has met no assignment line that the parser
    refuses. *)
Lemma run_ok_all (cfg : config) (align : Z) (lines : list str) :
  forall (b : bool) (r : bool * list str),
  run cfg align b lines = Ok r ->
  forall l, In l lines -> classify l = Assignment ->
            exists p, parse_key_val_pair (clean l) = Ok p.
Proof.
  induction lines as [|x rest IH]; intros b r Hr l Hin Hc; [contradiction|].
  cbn [run] in Hr.
  destruct (step cfg align b x) as [[b1 o1]|e] eqn:Es; [|discriminate].
  cbn [bind] in Hr.
  destruct (run cfg align b1 rest) as [[b2 o2]|e] eqn:Er; [|discriminate].
  destruct Hin as [<-|Hin].
  - apply (step_ok_inv cfg align b x (b1, o1) Es Hc).
  - apply (IH b1 (b2, o2) Er l Hin Hc).
Qed.

(** The [ValueError] of [format_nml] is the one of the first assignment
    line that the parser refuses. *)
Lemma format_nml_raise_first (cfg : config) (content : str) (e : exn) :
  format_nml cfg content = Raise e ->
  exists pre line post,
    splitlines content = pre ++ line :: post /\
    classify line = Assignment /\
    parse_key_val_pair (clean line) = Raise e /\
    e = ValueError (lit "No key matched in " ++ clean line) /\
    forall l, In l pre -> classify l = Assignment ->
              exists p, parse_key_val_pair (clean l) = Ok p.
Proof.
  rewrite format_nml_run, find_longest_key_eq. cbn [bind].
  set (align := (max_from (-1) (key_lengths (splitlines content))
                 + eq_offset cfg)%Z).
  intros H.
  destruct (run cfg align false (splitlines content)) as [[b o]|e'] eqn:Er;
    [discriminate|].
  cbn [bind] in H. injection H as <-.
  apply run_raise_iff in Er as (pre & line & post & E & Hc & Hp & Hpre).
  exists pre, line, post. repeat split; try assumption.
  now apply parse_raise_message.
Qed.

(** X8. The [ValueError] of [format_nml].  When [format_nml] raises
    [ValueError], a line that is neither a block header, a block end,
    blank nor a full-line comment was refused by the parser: the
    exception is the parser's, for the first such line of the document,
    its message names the cleaned line, and every assignment line
    before it was accepted.  And a document with such a line, wherever
    it stands, is never formatted: [format_nml] returns no text for it.
    (Nothing is said of the other way a run can fail, the padding
    [' ' * n] that cannot be built for a huge option.) *)
Theorem format_nml_value_error (cfg : config) (content : str) :
  (forall msg,
     format_nml cfg content = Raise (ValueError msg) ->
     exists pre line post,
       splitlines content = pre ++ line :: post /\
       classify line = Assignment /\
       parse_key_val_pair (clean line) = Raise (ValueError msg) /\
       msg = lit "No key matched in " ++ clean line /\
       forall l, In l pre -> classify l = Assignment ->
                 exists p, parse_key_val_pair (clean l) = Ok p) /\
  (forall line e,
     In line (splitlines content) -> classify line = Assignment ->
     parse_key_val_pair (clean line) = Raise e ->
     forall out, format_nml cfg content <> Ok out).
Proof.
  split.
  - intros msg H.
    apply format_nml_raise_first in H as (pre & line & post & E & Hc & Hp & Hm & Hpre).
    exists pre, line, post. repeat split; try assumption.
    now injection Hm as ->.
  - intros line e Hin Hc Hp out H.
    rewrite format_nml_run, find_longest_key_eq in H. cbn [bind] in H.
    destruct (run cfg _ false (splitlines content)) as [r|e'] eqn:Er;
      [|discriminate].
    destruct (run_ok_all cfg _ (splitlines content) false r Er line Hin Hc)
      as [p Hp'].
    congruence.
Qed.

Lemma format_nml_value_error_witness :
  let doc := lit "&a" ++ ["010"] ++ lit "x = 1" ++ ["010"] ++ lit "foo bar  "
             ++ ["010"] ++ lit "= 2" in
  format_nml default_config doc
  = Raise (ValueError (lit "No key matched in foo bar")) /\
  (exists pre line post,
     splitlines doc = pre ++ line :: post /\
     classify line = Assignment /\
     parse_key_val_pair (clean line)
     = Raise (ValueError (lit "No key matched in foo bar")) /\
     lit "No key matched in foo bar" = lit "No key matched in " ++ clean line /\
     forall l, In l pre -> classify l = Assignment ->
               exists p, parse_key_val_pair (clean l) = Ok p) /\
  forall out, format_nml default_config doc <> Ok out.
Proof.
  intros doc.
  assert (H : format_nml default_config doc
              = Raise (ValueError (lit "No key matched in foo bar")))
    by (vm_compute; reflexivity).
  split; [exact H|]. split.
  - exact (proj1 (format_nml_value_error default_config doc) _ H).
  - apply (proj2 (format_nml_value_error default_config doc) (lit "= 2")
             (ValueError (lit "No key matched in = 2"))).
    + vm_compute. tauto.
    + reflexivity.
    + reflexivity.
Defined.

Lemma key_length_blank (l : str) :
  forallb isspace l = true -> key_length l = None.
Proof.
  intros H. now rewrite <- key_length_strip, (strip_blank _ H).
Qed.

Lemma key_length_comment_line (l : str) :
  startswith (lit "!") (strip l) = true -> key_length l = None.
Proof.
  intros H. apply startswith_iff in H as [r Hr].
  rewrite <- key_length_strip, Hr. apply key_length_bang.
Qed.

Lemma run_skip (cfg : config) (align : Z) (pre post : list str) (l : str) :
  (forall b, step cfg align b l = Ok (b, [])) ->
  forall b, run cfg align b (pre ++ l :: post) = run cfg align b (pre ++ post).
Proof.
  intros Hl b. rewrite !run_app.
  destruct (run cfg align b pre) as [[b1 o1]|e]; [|reflexivity].
  cbn [bind run]. rewrite Hl. cbn [bind].
  destruct (run cfg align b1 post) as [[b2 o2]|e]; reflexivity.
Qed.

(** X9. A line that the options drop might as well not be there: a blank
    line when blank lines are not kept, and a full-line comment when
    comments are not kept, change neither the alignment nor anything
    else of the output. *)
Theorem dropped_line_absent (cfg : config) (c1 c2 : str)
        (pre post : list str) (l : str) :
  splitlines c1 = pre ++ l :: post ->
  splitlines c2 = pre ++ post ->
  (forallb isspace l = true /\ keep_whitelines cfg = false) \/
  (startswith (lit "!") (strip l) = true /\ keep_comments cfg = false) ->
  format_nml cfg c1 = format_nml cfg c2.
Proof.
  intros E1 E2 Hl.
  assert (Hk : key_length l = None).
  { destruct Hl as [[H _]|[H _]];
      [now apply key_length_blank | now apply key_length_comment_line]. }
  assert (Hs : forall align b, step cfg align b l = Ok (b, [])).
  { intros align b. unfold step. destruct Hl as [[H Hw]|[H Hc]].
    - now rewrite (classify_blank _ H), Hw.
    - now rewrite (classify_comment_intro _ H), Hc. }
  rewrite !format_nml_run, !find_longest_key_eq, E1, E2. cbn [bind].
  replace (key_lengths (pre ++ l :: post)) with (key_lengths (pre ++ post)).
  - now rewrite (run_skip cfg _ pre post l (Hs _)).
  - change (l :: post) with ([l] ++ post).
    rewrite !key_lengths_app, (key_lengths_none l Hk). reflexivity.
Qed.

Lemma dropped_line_absent_witness :
  let cfg := {| eq_offset := 5; block_indent := 2; trailing_comma := true;
                keep_comments := false; keep_whitelines := true |} in
  let c1 := lit "a = 1" ++ ["010"] ++ lit " ! note" ++ ["010"] ++ lit "b = 2" in
  let c2 := lit "a = 1" ++ ["010"] ++ lit "b = 2" in
  splitlines c1 = [lit "a = 1"] ++ lit " ! note" :: [lit "b = 2"] /\
  splitlines c2 = [lit "a = 1"] ++ [lit "b = 2"] /\
  format_nml cfg c1 = format_nml cfg c2.
Proof.
  intros cfg c1 c2. split; [reflexivity|]. split; [reflexivity|].
  exact (dropped_line_absent cfg c1 c2 [lit "a = 1"] [lit "b = 2"]
           (lit " ! note") eq_refl eq_refl
           (or_intror (conj eq_refl eq_refl))).
Defined.

Lemma not_bang_contains (s : str) :
  contains "!" s = false <-> forallb not_bang s = true.
Proof. apply contains_false_forallb. Qed.

(** What one turn puts out holds no [!] when comments are dropped,
    a block header apart. *)
Lemma step_no_bang (cfg : config) (align : Z) (b b' : bool) (line : str)
      (outs : list str) :
  keep_comments cfg = false ->
  (classify line = BlockOpen -> contains "!" line = false) ->
  step cfg align b line = Ok (b', outs) ->
  forall o, In o outs -> contains "!" o = false.
Proof.
  intros Hkc Hh Hs o Hin. unfold step in Hs.
  destruct (classify line) eqn:Hc.
  - injection Hs as _ <-. destruct Hin as [<-|[]].
    rewrite contains_bang_lower. apply not_bang_contains.
    apply forallb_strip_by, forallb_clean. apply not_bang_contains. now apply Hh.
  - injection Hs as _ <-.
    rewrite strip_clean, (classify_close_inv _ Hc) in Hin.
    destruct Hin as [<-|[<-|[]]]; reflexivity.
  - injection Hs as _ <-. rewrite (proj1 (classify_blank_inv _ Hc)) in Hin.
    destruct (keep_whitelines cfg && b); [|contradiction].
    destruct Hin as [<-|[]]. reflexivity.
  - injection Hs as _ <-. rewrite Hkc in Hin. contradiction.
  - destruct (format_line (clean line) align (block_indent cfg)
                          (trailing_comma cfg) (keep_comments cfg))
      as [fl|e] eqn:Hfl; [|discriminate].
    cbn [bind] in Hs. injection Hs as _ <-. destruct Hin as [<-|[]].
    apply format_line_shape in Hfl as (key & v0 & c & Hp & ->).
    destruct (parse_ok_fields _ _ _ _ Hp) as (_ & _ & _ & Hq).
    destruct (Hq not_bang) as [Hkb Hvb].
    { apply not_bang_contains. apply value_part_clean. }
    pose proof (forallb_normalize_value not_bang v0 eq_refl Hvb) as Hnb.
    rewrite Hkc. apply not_bang_contains.
    rewrite !forallb_app, Hkb, Hnb, !(forallb_spaces not_bang _ eq_refl).
    now destruct (trailing_comma cfg).
Qed.

Lemma run_no_bang (cfg : config) (align : Z) (lines : list str) :
  keep_comments cfg = false ->
  (forall line, In line lines -> classify line = BlockOpen ->
                contains "!" line = false) ->
  forall b b' outs,
    run cfg align b lines = Ok (b', outs) ->
    forall o, In o outs -> contains "!" o = false.
Proof.
  intros Hkc. induction lines as [|x rest IH]; intros Hh b b' outs Hr o Hin.
  - injection Hr as _ <-. contradiction.
  - cbn [run] in Hr.
    destruct (step cfg align b x) as [[b1 o1]|e] eqn:Es; [|discriminate].
    cbn [bind] in Hr.
    destruct (run cfg align b1 rest) as [[b2 o2]|e] eqn:Er; [|discriminate].
    cbn [bind] in Hr. injection Hr as _ <-.
    apply in_app_or in Hin as [Hin|Hin].
    + apply (step_no_bang cfg align b b1 x o1 Hkc); auto.
      apply Hh. now left.
    + apply (IH (fun l H => Hh l (or_intror H)) b1 b2 o2 Er o Hin).
Qed.

(** X10. With comments dropped, no [!] is left in the output of a document
    whose block headers hold none (a header is copied whole, with a
    comment that stands on its line). *)
Theorem no_comment_left (cfg : config) (content out : str) :
  format_nml cfg content = Ok out ->
  keep_comments cfg = false ->
  (forall line, In line (splitlines content) ->
                startswith (lit "&") (strip line) = true ->
                contains "!" line = false) ->
  contains "!" out = false.
Proof.
  intros Hf Hkc Hh. rewrite format_nml_run, find_longest_key_eq in Hf.
  cbn [bind] in Hf.
  destruct (run cfg _ false (splitlines content)) as [[b' ml]|e] eqn:Er;
    [|discriminate].
  cbn [bind snd] in Hf. injection Hf as <-.
  apply not_bang_contains. apply forallb_join; [reflexivity|].
  intros item Hin. apply not_bang_contains.
  refine (run_no_bang cfg _ (splitlines content) Hkc _ false b' ml Er item Hin).
  intros line Hl Hc. apply Hh; [exact Hl | now apply classify_open].
Qed.

Lemma no_comment_left_witness :
  let cfg := {| eq_offset := 5; block_indent := 2; trailing_comma := true;
                keep_comments := false; keep_whitelines := true |} in
  let doc := lit "&nml" ++ ["010"] ++ lit "! all" ++ ["010"]
             ++ lit "a = 'x' ! why" ++ ["010"] ++ lit "/" in
  let out := lit "&nml" ++ ["010"] ++ lit "  a     = 'x'," ++ ["010"]
             ++ lit "/" ++ ["010"] in
  format_nml cfg doc = Ok out /\ contains "!" out = false.
Proof.
  intros cfg doc out.
  assert (H : format_nml cfg doc = Ok out) by (vm_compute; reflexivity).
  split; [exact H|].
  apply (no_comment_left cfg doc out H eq_refl).
  intros line Hin. vm_compute in Hin.
  destruct Hin as [<-|[<-|[<-|[<-|[]]]]]; intros Hs; try reflexivity;
    vm_compute in Hs; discriminate.
Defined.

(** * Formatting any output again *)

Lemma classify_comment_text (ind t : str) :
  forallb isspace ind = true -> strip t = t ->
  classify (ind ++ lit "! " ++ t) = Comment.
Proof.
  intros Hi Ht. apply classify_comment_intro.
  now rewrite (strip_comment_line ind t Hi Ht).
Qed.

Lemma step_ok_not_assignment (cfg : config) (align : Z) (b : bool) (o : str) :
  classify o <> Assignment -> exists r, step cfg align b o = Ok r.
Proof. intros H. apply step_ok_if. intros Hc. contradiction. Qed.

(** A formatted assignment line is accepted by the parser, whatever
    its key and value are. *)
Lemma formatted_line_parses (ind pads key rest : str) :
  forallb isspace ind = true -> forallb isspace pads = true ->
  key <> [] -> forallb cls_key key = true -> contains "!" key = false ->
  exists p,
    parse_key_val_pair (clean (ind ++ key ++ pads ++ lit " = " ++ rest)) = Ok p.
Proof.
  intros Hi Hpd Hne Hk Hkb.
  set (fl := ind ++ key ++ pads ++ lit " = " ++ rest).
  assert (Hlen : key_length fl <> None).
  { rewrite key_length_key_of.
    assert (Ha : contains "!" (ind ++ key ++ pads ++ [" "; "="]) = false).
    { rewrite !contains_app, Hkb, (space_not_bang _ Hi), (space_not_bang _ Hpd).
      reflexivity. }
    assert (Efl : fl = (ind ++ key ++ pads ++ [" "; "="]) ++ " " :: rest).
    { unfold fl. now rewrite <- !app_assoc. }
    rewrite Efl, (value_part_app _ _ Ha).
    assert (Hm : matches_pattern ((ind ++ key ++ pads ++ [" "; "="])
                                  ++ value_part (" " :: rest))).
    { exists ind, [], [], key, (pads ++ [" "]), ["="], (value_part (" " :: rest)).
      repeat split; try assumption; try discriminate; auto.
      - now rewrite <- !app_assoc.
      - now rewrite forallb_app, Hpd. }
    apply matches_pattern_scan in Hm as [caps ->]. discriminate. }
  rewrite <- key_length_clean in Hlen. unfold key_length in Hlen.
  destruct (parse_key_val_pair (clean fl)) as [p|e]; [eauto | congruence].
Qed.

(** Every line that one turn of the loop puts out is without line
    boundary and is taken by any later turn without an exception. *)
Lemma step_outputs_ok (cfg : config) (align : Z) (b b' : bool) (line : str)
      (outs : list str) :
  one_line line = true ->
  step cfg align b line = Ok (b', outs) ->
  forall o, In o outs ->
    one_line o = true /\
    forall cfg' align' b0, exists r, step cfg' align' b0 o = Ok r.
Proof.
  intros Hl Hs o Hin. unfold step in Hs.
  destruct (classify line) eqn:Hc.
  - injection Hs as _ <-. destruct Hin as [<-|[]].
    split; [apply (restep_open cfg align b line Hl Hc)|].
    intros cfg' align' b0.
    destruct (restep_open cfg' align' b0 line Hl Hc) as [H _]. eauto.
  - injection Hs as _ <-.
    rewrite strip_clean, (classify_close_inv _ Hc) in Hin.
    destruct Hin as [<-|[<-|[]]]; (split; [reflexivity|]);
      intros cfg' align' b0; apply step_ok_not_assignment; discriminate.
  - injection Hs as _ <-. rewrite (proj1 (classify_blank_inv _ Hc)) in Hin.
    destruct (keep_whitelines cfg && b); [|contradiction].
    destruct Hin as [<-|[]]. split; [reflexivity|].
    intros cfg' align' b0. apply step_ok_not_assignment. discriminate.
  - injection Hs as _ <-. destruct (keep_comments cfg) eqn:Ekc; [|contradiction].
    destruct Hin as [<-|[]].
    split; [apply (restep_comment cfg align b line Hl Hc Ekc)|].
    intros cfg' align' b0. apply step_ok_not_assignment. intros Ha.
    match type of Ha with
    | classify ?x = _ => assert (Hcls : classify x = Comment)
    end.
    { apply classify_comment_text; [|apply strip_idem].
      destruct (negb b); [reflexivity | now apply forallb_spaces]. }
    congruence.
  - destruct (format_line (clean line) align (block_indent cfg)
                          (trailing_comma cfg) (keep_comments cfg))
      as [fl|e] eqn:Hfl; [|discriminate].
    cbn [bind] in Hs. injection Hs as _ <-. destruct Hin as [<-|[]].
    apply format_line_shape in Hfl as (key & v0 & c & Hp & ->).
    destruct (parse_ok_fields _ _ _ _ Hp) as (Hne & Hk & Ec & Hq).
    pose proof (forallb_clean no_break line Hl) as Hcl.
    destruct (Hq not_bang) as [Hkb _].
    { apply not_bang_contains. apply value_part_clean. }
    destruct (Hq no_break (forallb_value_part no_break _ Hcl)) as [Hkl Hv0l].
    pose proof (forallb_normalize_value no_break v0 eq_refl Hv0l) as Hvl.
    split.
    + change (one_line key = true) in Hkl.
      change (one_line (normalize_value v0) = true) in Hvl.
      rewrite !one_line_app, Hkl, Hvl, !one_line_spaces. cbn [andb].
      replace (one_line (lit " = ")) with true by reflexivity. cbn [andb].
      assert (Hcmt : one_line c = true).
      { rewrite Ec.
        destruct (comment_of_shape (clean line)) as [E|(t & E & _ & Ht)].
        - now rewrite E.
        - rewrite E, one_line_app, (Ht Hcl). reflexivity. }
      destruct (trailing_comma cfg); destruct (keep_comments cfg);
        cbn [andb]; try reflexivity; rewrite ?one_line_app; cbn;
        try exact Hcmt; reflexivity.
    + intros cfg' align' b0. apply step_ok_if. intros _.
      apply formatted_line_parses; try assumption.
      * now apply forallb_spaces.
      * now apply forallb_spaces.
      * now apply not_bang_contains.
Qed.

Lemma run_outputs_ok (cfg : config) (align : Z) (lines : list str) :
  (forall l, In l lines -> one_line l = true) ->
  forall b b' outs,
    run cfg align b lines = Ok (b', outs) ->
    forall o, In o outs ->
      one_line o = true /\
      forall cfg' align' b0, exists r, step cfg' align' b0 o = Ok r.
Proof.
  induction lines as [|x rest IH]; intros Hl b b' outs Hr o Hin.
  - injection Hr as _ <-. contradiction.
  - cbn [run] in Hr.
    destruct (step cfg align b x) as [[b1 o1]|e] eqn:Es; [|discriminate].
    cbn [bind] in Hr.
    destruct (run cfg align b1 rest) as [[b2 o2]|e] eqn:Er; [|discriminate].
    cbn [bind] in Hr. injection Hr as _ <-.
    apply in_app_or in Hin as [Hin|Hin].
    + apply (step_outputs_ok cfg align b b1 x o1 (Hl x (or_introl eq_refl)) Es o Hin).
    + apply (IH (fun l H => Hl l (or_intror H)) b1 b2 o2 Er o Hin).
Qed.

Lemma run_ok (cfg : config) (align : Z) (lines : list str) :
  (forall l, In l lines -> forall b, exists r, step cfg align b l = Ok r) ->
  forall b, exists r, run cfg align b lines = Ok r.
Proof.
  induction lines as [|x rest IH]; intros H b; [cbn; eauto|].
  cbn [run]. destruct (H x (or_introl eq_refl) b) as [[b1 o1] ->]. cbn [bind].
  destruct (IH (fun l Hl => H l (or_intror Hl)) b1) as [[b2 o2] ->].
  cbn [bind]. eauto.
Qed.

Lemma drop_final_empty_incl (ml : list str) (l : str) :
  In l (drop_final_empty ml) -> In l ml.
Proof.
  induction ml as [|x rest IH]; [tauto|].
  cbn [drop_final_empty]. destruct rest as [|y rest'].
  - destruct x; [intros [] | tauto].
  - intros [<-|H]; [now left | right; now apply IH].
Qed.

(** X11. What [format_nml] returns holds no line that the parser
    refuses: every line of the output that is neither a block header, a
    block end, blank nor a full-line comment is accepted by
    [parse_key_val_pair].  So formatting the output again, with any
    options, never raises [ValueError].  (Nothing is said of the other
    way a run can fail, the padding [' ' * n] that cannot be built for
    a huge option.) *)
Theorem reformat_no_value_error (cfg : config) (content out : str) :
  format_nml cfg content = Ok out ->
  (forall line, In line (splitlines out) -> classify line = Assignment ->
                exists p, parse_key_val_pair (clean line) = Ok p) /\
  (forall cfg' msg, format_nml cfg' out <> Raise (ValueError msg)).
Proof.
  intros Hf. rewrite format_nml_run, find_longest_key_eq in Hf.
  cbn [bind] in Hf.
  destruct (run cfg _ false (splitlines content)) as [[b' ml]|e] eqn:Er;
    [|discriminate].
  cbn [bind snd] in Hf. injection Hf as <-.
  pose proof (run_outputs_ok cfg _ (splitlines content)
                (splitlines_one_line content) false b' ml Er) as Hout.
  assert (Hlines : forall line,
             In line (splitlines (join ["010"] ml)) ->
             classify line = Assignment ->
             exists p, parse_key_val_pair (clean line) = Ok p).
  { intros line Hin Hc.
    rewrite (splitlines_join ml (fun l H => proj1 (Hout l H))) in Hin.
    apply drop_final_empty_incl in Hin.
    destruct (proj2 (Hout line Hin) cfg 0%Z false) as [r Hr].
    apply (step_ok_inv cfg 0%Z false line r Hr Hc). }
  split; [exact Hlines|].
  intros cfg' msg H.
  apply format_nml_raise_first in H as (pre & line & post & E & Hc & Hp & _).
  destruct (Hlines line) as [p Hp']; [|exact Hc|congruence].
  rewrite E. apply in_or_app. right. now left.
Qed.

Lemma reformat_no_value_error_witness :
  format_nml default_config (lit ",,a = .t.t. !") = Ok (lit "  ,a     = .true.t., ! ")
  /\ (forall line, In line (splitlines (lit "  ,a     = .true.t., ! ")) ->
                   classify line = Assignment ->
                   exists p, parse_key_val_pair (clean line) = Ok p)
  /\ forall cfg' msg,
       format_nml cfg' (lit "  ,a     = .true.t., ! ") <> Raise (ValueError msg).
Proof.
  assert (H : format_nml default_config (lit ",,a = .t.t. !")
              = Ok (lit "  ,a     = .true.t., ! ")) by (vm_compute; reflexivity).
  split; [exact H|].
  exact (reformat_no_value_error default_config _ _ H).
Defined.

(** X12. The only line boundary in the output is the newline: the other
    boundaries of the input (carriage return, form feed and the like)
    end a line and are not copied. *)
Theorem output_line_endings (cfg : config) (content out : str) :
  format_nml cfg content = Ok out ->
  forallb (fun c => negb (is_linebreak c) || Ascii.eqb c "010") out = true.
Proof.
  intros Hf. rewrite format_nml_run, find_longest_key_eq in Hf.
  cbn [bind] in Hf.
  destruct (run cfg _ false (splitlines content)) as [[b' ml]|e] eqn:Er;
    [|discriminate].
  cbn [bind snd] in Hf. injection Hf as <-.
  apply forallb_join; [reflexivity|]. intros item Hin.
  pose proof (proj1 (run_outputs_ok cfg _ (splitlines content)
                       (splitlines_one_line content) false b' ml Er item Hin))
    as Hi.
  revert Hi. apply forallb_impl. intros c Hc. unfold no_break in Hc.
  now rewrite Hc.
Qed.

Lemma output_line_endings_witness :
  format_nml default_config (lit "a = 1" ++ ["013"; "010"] ++ lit "b = 2" ++ ["012"])
  = Ok (lit "  a     = 1," ++ ["010"] ++ lit "  b     = 2,") /\
  forallb (fun c => negb (is_linebreak c) || Ascii.eqb c "010")
          (lit "  a     = 1," ++ ["010"] ++ lit "  b     = 2,") = true.
Proof.
  assert (H : format_nml default_config
                (lit "a = 1" ++ ["013"; "010"] ++ lit "b = 2" ++ ["012"])
              = Ok (lit "  a     = 1," ++ ["010"] ++ lit "  b     = 2,"))
    by (vm_compute; reflexivity).
  split; [exact H|].
  exact (output_line_endings default_config _ _ H).
Defined.

(** * The longest key of two documents put together *)

Lemma splitlines_nl (b : str) : splitlines ("010" :: b) = [] :: splitlines b.
Proof. destruct b; reflexivity. Qed.

Lemma splitlines_cons_nonempty (c : ascii) (t : str) : splitlines (c :: t) <> [].
Proof.
  cbn [splitlines]. destruct (is_linebreak c).
  - destruct t as [|c' t']; [discriminate|].
    destruct (Ascii.eqb c "013" && Ascii.eqb c' "010"); discriminate.
  - destruct (splitlines t); discriminate.
Qed.

(** The lines of [a], a newline and [b]: the lines of [a], then those
    of [b], with one empty line between them when [a] is empty or ends
    in a boundary that the newline does not complete. *)
Lemma splitlines_cons (c : ascii) (t : str) :
  splitlines (c :: t)
  = if is_linebreak c then
      match t with
      | c' :: t' =>
          if Ascii.eqb c "013" && Ascii.eqb c' "010"
          then [] :: splitlines t'
          else [] :: splitlines t
      | [] => [] :: splitlines t
      end
    else
      match splitlines t with
      | [] => [[c]]
      | l :: ls => (c :: l) :: ls
      end.
Proof. reflexivity. Qed.

Lemma splitlines_app_nl_len (n : nat) (a b : str) :
  (List.length a <= n)%nat ->
  exists e, (e = [] \/ e = [[]]) /\
    splitlines (a ++ "010" :: b) = splitlines a ++ e ++ splitlines b.
Proof.
  revert a. induction n as [|n IH]; intros a Hn.
  - destruct a; [|simpl in Hn; lia].
    exists [[]]. split; [now right|]. apply splitlines_nl.
  - destruct a as [|c t].
    { exists [[]]. split; [now right|]. apply splitlines_nl. }
    cbn [List.length] in Hn. cbn [app].
    rewrite (splitlines_cons c (t ++ "010" :: b)), (splitlines_cons c t).
    destruct (is_linebreak c) eqn:Hb.
    + destruct t as [|c' t']; cbn [app].
      * destruct (Ascii.eqb c "013") eqn:Er; cbn [andb].
        -- exists []. split; [now left|].
           replace (Ascii.eqb "010" "010") with true by reflexivity.
           reflexivity.
        -- exists [[]]. split; [now right|].
           rewrite splitlines_nl. reflexivity.
      * destruct (Ascii.eqb c "013" && Ascii.eqb c' "010").
        -- destruct (IH t') as (e & He & ->); [cbn [List.length] in Hn; lia|].
           exists e. split; [exact He | reflexivity].
        -- destruct (IH (c' :: t')) as (e & He & E); [lia|].
           cbn [app] in E. rewrite E.
           exists e. split; [exact He | reflexivity].
    + destruct t as [|c' t'].
      * cbn [app]. exists []. split; [now left|].
        rewrite splitlines_nl. reflexivity.
      * destruct (IH (c' :: t')) as (e & He & E); [lia|].
        exists e. split; [exact He|]. rewrite E.
        destruct (splitlines (c' :: t')) as [|l ls] eqn:El.
        -- now apply splitlines_cons_nonempty in El.
        -- reflexivity.
Qed.

Lemma max_from_app (d : Z) (l1 l2 : list Z) :
  max_from d (l1 ++ l2) = Z.max (max_from d l1) (max_from d l2).
Proof.
  induction l1 as [|x l1 IH].
  - cbn [app max_from fold_right].
    pose proof (proj1 (max_from_ge d l2)). unfold max_from in *. lia.
  - cbn [app]. unfold max_from in *. cbn [fold_right]. rewrite IH. lia.
Qed.

(** X13. The longest key of two documents joined by a newline is the larger
    of their longest keys: the scan has no memory but the running
    maximum, and no key runs over a line boundary. *)
Theorem find_longest_key_concat (a b : str) :
  find_longest_key (a ++ "010" :: b)
  = (na <- find_longest_key a ;; nb <- find_longest_key b ;;
     Ok (Z.max na nb)).
Proof.
  rewrite !find_longest_key_eq. cbn [bind].
  destruct (splitlines_app_nl_len (List.length a) a b (le_n _))
    as (e & He & ->).
  rewrite !key_lengths_app, !max_from_app.
  assert (E : key_lengths e = []).
  { destruct He as [->| ->]; [reflexivity|].
    cbn [key_lengths flat_map]. now rewrite key_length_nil. }
  rewrite E. cbn [max_from fold_right]. f_equal.
  pose proof (proj1 (max_from_ge (-1) (key_lengths (splitlines b)))).
  unfold max_from in *. lia.
Qed.

(** * Separators after the value *)

Lemma cst_facts (c : ascii) :
  is_cst c = true -> cls_eq c = false /\ cls_dot c = true /\ not_bang c = true.
Proof.
  unfold is_cst, contains. cbn [existsb]. rewrite !orb_true_iff.
  intros [H|[H|[H|H]]]; try discriminate;
    apply Ascii.eqb_eq in H; subst c; repeat split.
Qed.

Lemma cst_no_eq (w : str) :
  forallb is_cst w = true -> forallb (fun c => negb (cls_eq c)) w = true.
Proof.
  apply forallb_impl. intros c Hc.
  destruct (cst_facts c Hc) as (-> & _). reflexivity.
Qed.

Lemma cst_dot (w : str) : forallb is_cst w = true -> forallb cls_dot w = true.
Proof. apply forallb_impl. intros c Hc. apply (cst_facts c Hc). Qed.

Lemma cst_no_bang (w : str) : forallb is_cst w = true -> contains "!" w = false.
Proof.
  intros H. apply not_bang_contains. revert H. apply forallb_impl.
  intros c Hc. apply (cst_facts c Hc).
Qed.

(** A scan that stops inside [u] does not see what follows [u]. *)
Lemma scan_app_live (p : ascii -> bool) (u w : str) :
  lstrip_by p u <> [] ->
  takewhile p (u ++ w) = takewhile p u /\
  lstrip_by p (u ++ w) = lstrip_by p u ++ w.
Proof.
  induction u as [|c t IH]; cbn [lstrip_by takewhile app]; [congruence|].
  destruct (p c); intros H.
  - destruct (IH H) as [-> ->]. now split.
  - now split.
Qed.

Lemma lstrip_by_nil_all (p : ascii -> bool) (u : str) :
  lstrip_by p u = [] -> forallb p u = true.
Proof.
  intros H. pose proof (takewhile_lstrip p u) as E. rewrite H, app_nil_r in E.
  rewrite <- E. apply takewhile_forallb.
Qed.

(** No key and [=] in a text of separators. *)
Lemma match_key_cst (w : str) : forallb is_cst w = true -> match_key w = None.
Proof.
  intros H. unfold match_key. destruct (takewhile cls_key w); [reflexivity|].
  pose proof (forallb_lstrip_by is_cst isspace _
                (forallb_lstrip_by is_cst cls_key w H)) as Hr.
  destruct (lstrip_by isspace (lstrip_by cls_key w)) as [|c e]; [reflexivity|].
  cbn [forallb] in Hr. apply andb_prop in Hr as [Hc _].
  destruct (cst_facts c Hc) as (-> & _). reflexivity.
Qed.

Lemma trim_value_cst (g w : str) :
  forallb is_cst w = true -> trim_value (g ++ w) = trim_value g.
Proof.
  intros H.
  change (strip (rstrip_by is_cst (g ++ w)) = strip (rstrip_by is_cst g)).
  now rewrite (rstrip_by_app_all is_cst g w H).
Qed.

Lemma group2_app_cst (r w : str) :
  forallb is_cst w = true ->
  trim_value (takewhile cls_dot (lstrip_by cls_eq (r ++ w)))
  = trim_value (takewhile cls_dot (lstrip_by cls_eq r)).
Proof.
  intros H. destruct (lstrip_by cls_eq r) as [|x y] eqn:Er.
  - rewrite (lstrip_by_app_all cls_eq r w (lstrip_by_nil_all _ _ Er)).
    rewrite (lstrip_by_free cls_eq w (cst_no_eq w H)).
    rewrite (takewhile_all cls_dot w (cst_dot w H)).
    apply (trim_value_cst [] w H).
  - destruct (scan_app_live cls_eq r w) as [_ ->]; [congruence|].
    rewrite Er.
    destruct (lstrip_by cls_dot (x :: y)) as [|x' y'] eqn:Ed.
    + pose proof (lstrip_by_nil_all _ _ Ed) as Hall.
      rewrite (takewhile_app_all cls_dot _ w Hall).
      rewrite (takewhile_all cls_dot w (cst_dot w H)).
      rewrite (takewhile_all cls_dot _ Hall).
      apply (trim_value_cst _ w H).
    + destruct (scan_app_live cls_dot (x :: y) w) as [-> _]; [congruence|].
      reflexivity.
Qed.

(** Separators added at the end of a text change neither whether the
    key and the [=] are found nor the two fields. *)
Lemma fields_match_key_app (u w : str) :
  forallb is_cst w = true ->
  fields_of (match_key (u ++ w)) = fields_of (match_key u).
Proof.
  intros H. destruct (lstrip_by cls_key u) as [|c r] eqn:Eu.
  - assert (E1 : match_key u = None).
    { unfold match_key. rewrite Eu. now destruct (takewhile cls_key u). }
    assert (E2 : match_key (u ++ w) = None).
    { unfold match_key.
      rewrite (lstrip_by_app_all cls_key u w (lstrip_by_nil_all _ _ Eu)).
      destruct (takewhile cls_key (u ++ w)); [reflexivity|].
      pose proof (forallb_lstrip_by is_cst isspace _
                    (forallb_lstrip_by is_cst cls_key w H)) as Hr.
      destruct (lstrip_by isspace (lstrip_by cls_key w)) as [|d e];
        [reflexivity|].
      cbn [forallb] in Hr. apply andb_prop in Hr as [Hd _].
      destruct (cst_facts d Hd) as (-> & _). reflexivity. }
    now rewrite E1, E2.
  - destruct (scan_app_live cls_key u w) as [Et El]; [congruence|].
    unfold match_key. rewrite Et, El, Eu.
    destruct (takewhile cls_key u) as [|k ks]; [reflexivity|].
    destruct (lstrip_by isspace (c :: r)) as [|d e] eqn:Es.
    + rewrite (lstrip_by_app_all isspace (c :: r) w (lstrip_by_nil_all _ _ Es)).
      pose proof (forallb_lstrip_by is_cst isspace w H) as Hr.
      destruct (lstrip_by isspace w) as [|d e]; [reflexivity|].
      cbn [forallb] in Hr. apply andb_prop in Hr as [Hd _].
      destruct (cst_facts d Hd) as (-> & _). reflexivity.
    + destruct (scan_app_live isspace (c :: r) w) as [_ ->]; [congruence|].
      rewrite Es. cbn [app]. destruct (cls_eq d); [|reflexivity].
      cbn [fields_of option_map group nth]. f_equal. f_equal.
      apply (group2_app_cst e w H).
Qed.

Lemma fields_match_kv_app (s w : str) :
  forallb is_cst w = true ->
  fields_of (match_kv (s ++ w)) = fields_of (match_kv s).
Proof.
  intros H. destruct (lstrip_by isspace s) as [|c t] eqn:Es.
  - assert (E1 : match_kv s = None) by (unfold match_kv; now rewrite Es).
    assert (E2 : match_kv (s ++ w) = None).
    { unfold match_kv.
      rewrite (lstrip_by_app_all isspace s w (lstrip_by_nil_all _ _ Es)).
      pose proof (forallb_lstrip_by is_cst isspace w H) as Hr.
      destruct (lstrip_by isspace w) as [|d e]; [reflexivity|].
      rewrite (match_key_cst (d :: e) Hr).
      rewrite (match_key_cst (lstrip_by isspace e)).
      - now destruct (cls_comma d).
      - apply forallb_lstrip_by. now apply forallb_cons_tail in Hr. }
    now rewrite E1, E2.
  - destruct (scan_app_live isspace s w) as [_ El]; [congruence|].
    unfold match_kv. rewrite El, Es. cbn [app].
    pose proof (fields_match_key_app (c :: t) w H) as Hb. cbn [app] in Hb.
    destruct (cls_comma c); [|exact Hb].
    assert (Ha : fields_of (match_key (lstrip_by isspace (t ++ w)))
                 = fields_of (match_key (lstrip_by isspace t))).
    { destruct (lstrip_by isspace t) as [|d e] eqn:Et.
      - rewrite (lstrip_by_app_all isspace t w (lstrip_by_nil_all _ _ Et)).
        rewrite (match_key_cst (lstrip_by isspace w)); [reflexivity|].
        now apply forallb_lstrip_by.
      - destruct (scan_app_live isspace t w) as [_ ->]; [congruence|].
        rewrite Et. apply (fields_match_key_app (d :: e) w H). }
    destruct (match_key (lstrip_by isspace (t ++ w))) as [r1|],
             (match_key (lstrip_by isspace t)) as [r2|];
      try discriminate; [exact Ha | exact Hb].
Qed.

(** The parser in terms of the two fields. *)
Lemma parse_fields (line : str) :
  parse_key_val_pair line =
  match fields_of (match_kv (value_part line)) with
  | Some (k, v) => Ok (k, v, comment_of line)
  | None => Raise (ValueError (lit "No key matched in " ++ line))
  end.
Proof.
  rewrite parse_unfold. now destruct (match_kv (value_part line)).
Qed.

(** X14. Commas, spaces and tabs after the value - at the end of the line or
    before the comment - are not part of what is formatted: the line
    with them and the line without them give the same output. *)
Theorem trailing_separators_absorbed (pre w rest : str) (align bi : Z)
        (tc kc : bool) (out : str) :
  contains "!" pre = false -> forallb is_cst w = true ->
  rest = [] \/ (exists r, rest = "!" :: r) ->
  format_line (pre ++ w ++ rest) align bi tc kc = Ok out <->
  format_line (pre ++ rest) align bi tc kc = Ok out.
Proof.
  intros Hp Hw Hr.
  assert (Hpw : contains "!" (pre ++ w) = false)
    by now rewrite contains_app, Hp, (cst_no_bang w Hw).
  assert (Ev : value_part rest = []).
  { destruct Hr as [->|[r ->]]; [reflexivity|].
    apply (value_part_at [] r eq_refl). }
  assert (E : parse_key_val_pair (pre ++ w ++ rest)
              = parse_key_val_pair (pre ++ rest)
              \/ exists e e', parse_key_val_pair (pre ++ w ++ rest) = Raise e
                              /\ parse_key_val_pair (pre ++ rest) = Raise e').
  { rewrite (parse_fields (pre ++ w ++ rest)), (parse_fields (pre ++ rest)).
    rewrite app_assoc, (value_part_app _ rest Hpw), (comment_of_app _ rest Hpw).
    rewrite (value_part_app _ rest Hp), (comment_of_app _ rest Hp).
    rewrite Ev, !app_nil_r, (fields_match_kv_app pre w Hw).
    destruct (fields_of (match_kv pre)) as [[k v]|]; [now left|].
    right. eauto. }
  unfold format_line. destruct E as [->|(e & e' & -> & ->)]; [tauto|].
  cbn [bind]. split; discriminate.
Qed.

Lemma trailing_separators_absorbed_witness :
  contains "!" (lit "a = 1, 2") = false /\
  forallb is_cst (lit " ,, ,") = true /\
  (format_line (lit "a = 1, 2" ++ lit " ,, ," ++ lit "! c") 6 2 true true
   = Ok (lit "  a     = 1, 2, ! c") <->
   format_line (lit "a = 1, 2" ++ lit "! c") 6 2 true true
   = Ok (lit "  a     = 1, 2, ! c")).
Proof.
  split; [reflexivity|]. split; [reflexivity|].
  apply (trailing_separators_absorbed (lit "a = 1, 2") (lit " ,, ,") (lit "! c")
           6 2 true true (lit "  a     = 1, 2, ! c"));
    [reflexivity | reflexivity | right; exists (lit " c"); reflexivity].
Defined.

(** * The block flag *)

Lemma step_flag (cfg : config) (align : Z) (b b' : bool) (line : str)
      (outs : list str) :
  step cfg align b line = Ok (b', outs) ->
  b' = match classify line with
       | BlockOpen => true
       | BlockClose => false
       | _ => b
       end.
Proof.
  unfold step. destruct (classify line); intros H;
    try (now injection H as <- _).
  destruct (format_line (clean line) align (block_indent cfg)
                        (trailing_comma cfg) (keep_comments cfg));
    [|discriminate].
  cbn [bind] in H. now injection H as <- _.
Qed.

Lemma classify_not_delimiter (x : str) :
  startswith (lit "&") (strip x) = false -> strip x <> lit "/" ->
  classify x <> BlockOpen /\ classify x <> BlockClose.
Proof.
  intros Ho Hc. split; intros H.
  - apply classify_open in H. congruence.
  - apply classify_close_inv in H. contradiction.
Qed.

Lemma run_flag_kept (cfg : config) (align : Z) (lines : list str) :
  (forall x, In x lines ->
     startswith (lit "&") (strip x) = false /\ strip x <> lit "/") ->
  forall b b' outs, run cfg align b lines = Ok (b', outs) -> b' = b.
Proof.
  induction lines as [|x rest IH]; intros Hl b b' outs Hr.
  - now injection Hr as <- _.
  - cbn [run] in Hr.
    destruct (step cfg align b x) as [[b1 o1]|e] eqn:Es; [|discriminate].
    cbn [bind] in Hr.
    destruct (run cfg align b1 rest) as [[b2 o2]|e] eqn:Er; [|discriminate].
    cbn [bind] in Hr. injection Hr as <- _.
    rewrite (IH (fun y H => Hl y (or_intror H)) b1 b2 o2 Er).
    rewrite (step_flag cfg align b b1 x o1 Es).
    destruct (Hl x (or_introl eq_refl)) as [Ho Hc].
    destruct (classify_not_delimiter x Ho Hc) as [H1 H2].
    destruct (classify x); congruence.
Qed.

(** X15. The block flag has no memory of nesting: after the loop it says
    only whether the last line that opens or closes a block was a
    header.  Whatever comes before that line, headers inside an open
    block or [/] lines outside any block included, is forgotten. *)
Theorem last_delimiter_decides (cfg : config) (align : Z)
        (st st' : loop_state) (pre post : list str) (d : str) :
  for_each (format_nml_body cfg align) st (pre ++ d :: post) = Ok st' ->
  (forall x, In x post ->
     startswith (lit "&") (strip x) = false /\ strip x <> lit "/") ->
  (startswith (lit "&") (strip d) = true -> in_block st' = true) /\
  (strip d = lit "/" -> in_block st' = false).
Proof.
  intros Hf Hpost. rewrite for_each_run, run_app in Hf.
  destruct (run cfg align (in_block st) pre) as [[b1 o1]|e]; [|discriminate].
  cbn [bind] in Hf.
  destruct (run cfg align b1 (d :: post)) as [[b2 o2]|e] eqn:Er;
    [|discriminate].
  cbn [bind] in Hf. injection Hf as <-. cbn [extend in_block fst].
  cbn [run] in Er.
  destruct (step cfg align b1 d) as [[b3 o3]|e] eqn:Es; [|discriminate].
  cbn [bind] in Er.
  destruct (run cfg align b3 post) as [[b4 o4]|e] eqn:Ep; [|discriminate].
  cbn [bind] in Er. injection Er as <- _.
  rewrite (run_flag_kept cfg align post Hpost b3 b4 o4 Ep).
  rewrite (step_flag cfg align b1 b3 d o3 Es).
  split; intros H.
  - apply classify_open in H. now rewrite H.
  - now rewrite (classify_close d H).
Qed.

Lemma last_delimiter_decides_witness :
  for_each (format_nml_body default_config 6)
           {| in_block := false; mod_lines := [] |}
           ([lit "&a"; lit "&b"; lit "/"] ++ lit " / " :: [lit "x = 1"; lit "! c"])
  = Ok {| in_block := false;
          mod_lines := [lit "&a"; lit "&b"; lit "/"; []; lit "/"; [];
                        lit "  x     = 1,"; lit "! c"] |}
  /\ in_block {| in_block := false;
                 mod_lines := [lit "&a"; lit "&b"; lit "/"; []; lit "/"; [];
                               lit "  x     = 1,"; lit "! c"] |} = false.
Proof.
  assert (H : for_each (format_nml_body default_config 6)
                {| in_block := false; mod_lines := [] |}
                ([lit "&a"; lit "&b"; lit "/"] ++ lit " / "
                   :: [lit "x = 1"; lit "! c"])
              = Ok {| in_block := false;
                      mod_lines := [lit "&a"; lit "&b"; lit "/"; []; lit "/"; [];
                                    lit "  x     = 1,"; lit "! c"] |})
    by (vm_compute; reflexivity).
  split; [exact H|].
  apply (last_delimiter_decides default_config 6 _ _ _ _ _ H).
  - intros x [<-|[<-|[]]]; split; try reflexivity; discriminate.
  - reflexivity.
Defined.
